(** * A shallow embedding of the helm deploy action (index.js)

    The action resolves its parameters from the workflow inputs and from the
    inbound deployment event, builds the argument list of [helm upgrade],
    optionally rewrites the kubeconfig to carry a token, renders the value
    files and reports the deployment status.  The functions of index.js are
    embedded below in the order of the file; the functions of the libraries it
    calls (@actions/core, JSON, js-yaml, mustache, fs, @actions/exec, the
    GitHub client) are variables of the section.

    An [async] function is a function of the state that returns or throws:
    the [await]s of the file run one after the other, but for the tasks of
    [renderFiles].  The file system is the map from the files to their
    contents; which file a path names is for the system to tell ([file_of]),
    and a write succeeds. *)

From Stdlib Require Import ZArith Ascii.
From stdpp Require Import base strings list gmap pretty.

Set Warnings "-register-all".

(** ** JavaScript values *)

(** The values the action handles: workflow inputs are strings, the event
    payload is parsed JSON and the kubeconfig is parsed YAML.  An object is the
    list of its own properties in insertion order.  Numbers are the
    integer-valued ones, strings are exact for ASCII text (every name and
    constant of the program is ASCII), and a document is a tree: two nodes are
    never the same object.  (A YAML document with aliases is not a tree; the
    kubeconfig with its shared objects is a [node], further down.) *)
Inductive value : Type :=
  | VUndefined
  | VNull
  | VBool (b : bool)
  | VNumber (n : Z)
  | VString (s : string)
  | VArray (elems : list value)
  | VObject (props : list (string * value)).

(** What a [throw] carries.  [Error] is what the program (or a library)
    throws with [new Error(message)]; [TypeError] is the runtime's, raised by a
    property access on [undefined] or [null], a call of something that is not
    a function, or an iteration over something that is not iterable. *)
Inductive exn : Type :=
  | Error (message : string)
  | TypeError.

Inductive result (A : Type) : Type :=
  | Ok (a : A)
  | Throw (e : exn).
Arguments Ok {A} a.
Arguments Throw {A} e.

#[global] Instance result_ret : MRet result := fun _ a => Ok a.
#[global] Instance result_bind : MBind result := fun _ _ f r =>
  match r with
  | Ok a => f a
  | Throw e => Throw e
  end.

(** [!!v] *)
Definition truthy (v : value) : bool :=
  match v with
  | VUndefined | VNull => false
  | VBool b => b
  | VNumber n => negb (n =? 0)%Z
  | VString s => negb (String.eqb s EmptyString)
  | VArray _ | VObject _ => true
  end.

Definition is_truthy (v : value) : Prop := truthy v = true.

(** [v === "s"] against a string constant *)
Definition strict_eq_string (v : value) (s : string) : bool :=
  match v with
  | VString t => String.eqb t s
  | _ => false
  end.

(** Own property of an object, [undefined] when there is none. *)
Fixpoint obj_get (props : list (string * value)) (name : string) : value :=
  match props with
  | [] => VUndefined
  | (k, v) :: rest => if String.eqb k name then v else obj_get rest name
  end.

(** [o[name] = x] on an object: an existing property keeps its place. *)
Fixpoint obj_set (props : list (string * value)) (name : string) (x : value)
    : list (string * value) :=
  match props with
  | [] => [(name, x)]
  | (k, v) :: rest =>
      if String.eqb k name then (k, x) :: rest else (k, v) :: obj_set rest name x
  end.

(** The element a property name indexes: [name] is the decimal spelling of
    some [i] below the length. *)
Fixpoint index_get {A : Type} (l : list A) (i : nat) (name : string) : option A :=
  match l with
  | [] => None
  | x :: rest => if String.eqb (pretty i) name then Some x else index_get rest (S i) name
  end.

(** [v[name]]: own properties, with [length] and the indices of arrays and
    strings.  Reading a property of [undefined] or [null] throws.  Members
    inherited from the built-in prototypes are not modelled, so the reading is
    that of the program when the prototype of [v] has no member [name]: on a
    mapping, for every name outside [Object.prototype] ([payload], [id],
    [users], [contexts], [context], [user] and every input name of the action
    are outside it).  An array inherits more, [values] among it, which is an
    input name: [[].values] is a function where this reading is [undefined]. *)
Definition get_prop (v : value) (name : string) : result value :=
  match v with
  | VUndefined | VNull => Throw TypeError
  | VBool _ | VNumber _ => Ok VUndefined
  | VString s =>
      if String.eqb name "length" then Ok (VNumber (Z.of_nat (String.length s)))
      else Ok (match index_get (String.list_ascii_of_string s) 0 name with
               | Some c => VString (String c EmptyString)
               | None => VUndefined
               end)
  | VArray l =>
      if String.eqb name "length" then Ok (VNumber (Z.of_nat (length l)))
      else Ok (default VUndefined (index_get l 0 name))
  | VObject props => Ok (obj_get props name)
  end.

(** [String(v)], as a template literal converts its holes. *)
Fixpoint to_str (v : value) : string :=
  match v with
  | VUndefined => "undefined"
  | VNull => "null"
  | VBool true => "true"
  | VBool false => "false"
  | VNumber n => pretty n
  | VString s => s
  | VArray l =>
      (fix join (l : list value) : string :=
         match l with
         | [] => EmptyString
         | x :: rest =>
             let sx := match x with
                       | VUndefined | VNull => EmptyString
                       | _ => to_str x
                       end in
             match rest with
             | [] => sx
             | _ :: _ => sx +:+ "," +:+ join rest
             end
         end) l
  | VObject _ => "[object Object]"
  end.

(** [s.includes(c)] and [s.replace(c, d)] for one-character strings:
    [replace] with a string pattern rewrites the first occurrence only. *)
Fixpoint includes (s : string) (c : ascii) : bool :=
  match s with
  | EmptyString => false
  | String a rest => if Ascii.eqb a c then true else includes rest c
  end.

Fixpoint replace (s : string) (c d : ascii) : string :=
  match s with
  | EmptyString => EmptyString
  | String a rest => if Ascii.eqb a c then String d rest else String a (replace rest c d)
  end.

(** ** The process state and the effects of the action *)

(** What the action prints or asks of a collaborator, in order: the lines of
    [core.debug], [core.info], [core.warning] and [core.error], the processes
    [exec.exec] spawns and the deployment statuses posted. *)
Inductive event : Type :=
  | Debug (text : string)
  | Info (text : string)
  | Warning (text : string) (cause : exn)
  | ErrorLine (e : exn)
  | Exec (command : value) (args : list value)
  | DeploymentStatus (id : value) (state url : string).

(** The state the action reads and writes: the files, [process.env], and
    the failure [core.setFailed] records.  [fs] maps a file to its content.
    A file is told by its name for the system (the absolute path that the
    working directory and the links resolve a path to); the program reaches
    it through a path, and [file_of path] is the file that the path names:
    [./values.yml], [values.yml] and the absolute path of that file are one
    file.  The action changes neither the working directory nor a link, so
    [file_of] is the same function all along a run. *)
Record World : Type := {
  fs : gmap string string;
  env : gmap string string;
  failed : option exn
}.

Definition with_fs (w : World) (f : gmap string string) : World :=
  {| fs := f; env := env w; failed := failed w |}.
Definition with_env (w : World) (e : gmap string string) : World :=
  {| fs := fs w; env := e; failed := failed w |}.
Definition with_failed (w : World) (e : exn) : World :=
  {| fs := fs w; env := env w; failed := Some e |}.

(** An [async] function: it returns or throws, changes the state and emits
    events. *)
Definition M (A : Type) : Type := World -> result A * World * list event.

#[global] Instance M_ret : MRet M := fun _ a w => (Ok a, w, []).
#[global] Instance M_bind : MBind M := fun _ _ f m w =>
  match m w with
  | (Ok a, w1, out1) => let '(r, w2, out2) := f a w1 in (r, w2, out1 ++ out2)
  | (Throw e, w1, out1) => (Throw e, w1, out1)
  end.

Definition throw {A : Type} (e : exn) : M A := fun w => (Throw e, w, []).
Definition lift {A : Type} (r : result A) : M A := fun w => (r, w, []).
Definition emit (ev : event) : M unit := fun w => (Ok tt, w, [ev]).
Definition emit_all (evs : list event) : M unit := fun w => (Ok tt, w, evs).
Definition get_world : M World := fun w => (Ok w, w, []).
Definition modify (f : World -> World) : M unit := fun w => (Ok tt, f w, []).

(** [try { body } catch (error) { handler }] *)
Definition try_catch {A : Type} (body : M A) (handler : exn -> M A) : M A := fun w =>
  match body w with
  | (Ok a, w1, out1) => (Ok a, w1, out1)
  | (Throw e, w1, out1) => let '(r, w2, out2) := handler e w1 in (r, w2, out1 ++ out2)
  end.

(** [writeFile(path, data)], to the file that the path names, and
    [process.env[name] = x] *)
Definition writeFile (file_of : string -> string) (path data : string) : M unit :=
  modify (fun w => with_fs w (<[file_of path := data]> (fs w))).
Definition set_env (name x : string) : M unit :=
  modify (fun w => with_env w (<[name := x]> (env w))).

(** A [process.env] entry in a condition or a template hole. *)
Definition env_truthy (x : option string) : bool :=
  match x with
  | Some s => negb (String.eqb s EmptyString)
  | None => false
  end.
Definition env_str (x : option string) : string := default "undefined" x.

(** [readFile(file, { encoding: "utf8" })], of the file that the path
    names.  A number is taken for a file descriptor, and none is open for
    reading here; any other value that is not a string is refused. *)
Definition readFile (file_of : string -> string) (files : gmap string string)
    (file : value) : result string :=
  match file with
  | VString path =>
      match files !! file_of path with
      | Some content => Ok content
      | None => Throw (Error ("ENOENT: no such file or directory, open '" +:+ path +:+ "'"))
      end
  | VNumber _ => Throw (Error "EBADF: bad file descriptor, read")
  | _ => Throw TypeError
  end.

(** [writeFile(path, data)] where [data] is whatever the action resolved:
    only a string is written. *)
Definition writeFile_value (file_of : string -> string) (path : string) (data : value)
    : M unit :=
  match data with
  | VString s => writeFile file_of path s
  | _ => throw TypeError
  end.

(** What the rendering of one file leaves on disk. *)
Definition write_rendered (file_of : string -> string) (files : gmap string string)
    (task : result (value * string)) : gmap string string :=
  match task with
  | Ok (VString path, rendered) => <[file_of path := rendered]> files
  | _ => files
  end.

(** [Promise.all]: the first rejection, in the order of the list. *)
Fixpoint Promise_all {A : Type} (tasks : list (result A)) : result unit :=
  match tasks with
  | [] => Ok tt
  | Ok _ :: rest => Promise_all rest
  | Throw e :: _ => Throw e
  end.

Definition dq : string := String "034"%char EmptyString.
Definition quoted (s : string) : string := dq +:+ s +:+ dq.

(** The options object of [getInput]: [undefined] or [{ required: ... }]. *)
Record InputOptions : Type := { required : bool }.

(** The parameters [run] resolves (index.js:222-242). *)
Record Params : Type := {
  track : value;
  appName : value;
  release : value;
  namespace : value;
  chart : value;
  chartVersion : value;
  values : value;
  task : value;
  version : value;
  valueFiles : list value;
  removeCanary : value;
  helm : value;
  timeout : value;
  repository : value;
  repository_password : value;
  repository_username : value;
  repository_alias : value;
  dryRun : string;
  secrets : value;
  kubeContext : value;
  kubeToken : value
}.

Section Action.

(** [core.getInput(name)] without [required]: the workflow input [name]
    read from the environment, the empty string when it is not set. *)
Variable core_getInput : string -> string.

(** [github.context.payload.deployment], [undefined] outside a deployment
    event; [github.context.repo] (a getter that throws when the repository
    is not known) and [github.context.sha]. *)
Variable deployment : value.
Variable context_repo : result (string * string).
Variable context_sha : string.

(** The GitHub client: [new github.GitHub(token)] and
    [client.repos.createDeploymentStatus], which fail as the network does. *)
Variable GitHub_new : string -> result unit.
Variable createDeploymentStatus : value -> string -> string -> result unit.

(** [JSON.parse] ([None]: it throws a SyntaxError) and [JSON.stringify]. *)
Variable JSON_parse : string -> option value.
Variable JSON_stringify : value -> string.

(** [Mustache.render(content, data, {}, ["${{", "}}"])], which throws on a
    template it cannot parse. *)
Variable Mustache_render : string -> value -> result string.

(** [Buffer.from(s, 'base64').toString('utf-8')] *)
Variable base64_decode : string -> string.

(** [path.join(os.homedir(), ".kube", "config")] *)
Variable homedir_kube_config : string.

(** [yaml.load] (it throws on a document it cannot parse) and [yaml.dump]. *)
Variable yaml_load : string -> result value.
Variable yaml_dump : value -> string.

(** [exec.exec(command, args, { ignoreReturnCode })]: how the spawned
    process ends. *)
Variable exec_exec : value -> list value -> bool -> result unit.

(** The file a path names: where the system gets to from the working
    directory, links followed.  It is the system's to tell, as the inputs are
    the workflow's. *)
Variable file_of : string -> string.

(** index.js:22 *)
Definition status (state : string) : M unit :=
  try_catch
    (let token := core_getInput "token" in
     if String.eqb token EmptyString || negb (truthy deployment) then
       emit (Debug "not setting deployment status")
     else
       lift (GitHub_new token);;
       '(owner, repo) ← lift context_repo;
       let url := "https://github.com/" +:+ owner +:+ "/" +:+ repo +:+ "/commit/"
                    +:+ context_sha +:+ "/checks" in
       id ← lift (get_prop deployment "id");
       emit (DeploymentStatus id state url);;
       lift (createDeploymentStatus id state url))
    (fun error => emit (Warning "Failed to set deployment status: " error)).

(** index.js:50 *)
Definition releaseName (name track : value) : value :=
  if negb (strict_eq_string track "stable")
  then VString (to_str name +:+ "-" +:+ to_str track)
  else name.

(** index.js:57 *)
Definition chartName (name : value) : value :=
  if strict_eq_string name "app" then VString "/usr/src/charts/app" else name.

(** index.js:64 *)
Definition getValues (values : value) : value :=
  if negb (truthy values) then VString "{}"
  else match values with
       | VArray _ | VObject _ => VString (JSON_stringify values)
       | _ => values
       end.

(** index.js:74 *)
Definition getSecrets (secrets : value) : value :=
  match secrets with
  | VString s => default secrets (JSON_parse s)
  | _ => secrets
  end.

(** index.js:85 *)
Definition getValueFiles (files : value) : list value :=
  let fileList :=
    match files with
    | VString s => default (VArray [files]) (JSON_parse s)
    | _ => files
    end in
  match fileList with
  | VArray l => filter is_truthy l
  | _ => []
  end.

(** index.js:103 *)
Definition getInput (name : string) (options : option InputOptions) : result value :=
  let val := core_getInput name in
  let val :=
    if (String.length val =? 0)%nat && includes name "-"%char
    then core_getInput (replace name "-"%char "_"%char)
    else val in
  val ← (if truthy deployment then
           top ← get_prop deployment name;
           let val := if truthy top then top else VString val in
           payload ← get_prop deployment "payload";
           nested ← get_prop payload name;
           mret (if truthy nested then nested else val)
         else mret (VString val));
  if match options with Some o => required o | None => false end && negb (truthy val)
  then Throw (Error ("Input required and not supplied: " +:+ name))
  else mret val.

(** index.js:138-139, the callback of [files.map] up to its write: what one
    file is rendered to, from the files as they are when [map] runs. *)
Definition render_task (files : gmap string string) (data file : value)
    : result (value * string) :=
  content ← readFile file_of files file;
  rendered ← Mustache_render content data;
  mret (file, rendered).

(** index.js:132.  The tasks run concurrently, each reading its file and
    then writing it; they are taken to all read before any of them writes
    (every read is started inside [map], up to the first [await] of the
    callback), which is what happens when the paths name different files.
    The files of the tasks that succeed are written even when another task
    fails. *)
Definition renderFiles (files : list value) (data : value) : M unit :=
  emit (Debug ("rendering value files [" +:+ to_str (VArray files) +:+ "] with: "
               +:+ JSON_stringify data));;
  w ← get_world;
  let tasks := render_task (fs w) data <$> files in
  modify (fun w => with_fs w (foldl (write_rendered file_of) (fs w) tasks));;
  lift (Promise_all tasks).

(** index.js:152 *)
Definition deleteCmd (helm namespace release : value) : list value :=
  if strict_eq_string helm "helm3"
  then [VString "delete"; VString "-n"; namespace; release]
  else [VString "delete"; VString "--purge"; release].

(** index.js:164 *)
Definition parseBase64 (secretVal : string) : string := base64_decode secretVal.

Definition userName : string := "helm-deploy-action-token-user".

Definition no_contexts : exn :=
  Error "Cannot find contexts in the kubeconfig file, which are required when using helm2 with the kube-token option".

(** index.js:203-205, one turn of the loop: [context.context.user = userName].
    An assignment to a property of a primitive is dropped (the file is not in
    strict mode); one to a named property of an array is not part of what
    [yaml.dump] prints. *)
Definition set_context_user (context : value) : result value :=
  inner ← get_prop context "context";
  match inner with
  | VUndefined | VNull => Throw TypeError
  | VObject iprops =>
      match context with
      | VObject props =>
          Ok (VObject (obj_set props "context" (VObject (obj_set iprops "user" (VString userName)))))
      | _ => Ok context
      end
  | _ => Ok context
  end.

(** index.js:187-205, on the parsed document as a tree, which is what the
    program does to a document none of whose arrays and mappings is shared
    between two places ([add_token_user_in_place], further down, is the
    program on any document, and agrees with this one on those).  When the
    document is not a mapping: on an array, [users] becomes a named property
    of the array and [contexts] is [undefined]; on a primitive the assignment
    to [users] is dropped and [push] is read from [undefined]. *)
Definition add_token_user (kubeconfigContent kubeToken : value) : result value :=
  match kubeconfigContent with
  | VUndefined | VNull | VBool _ | VNumber _ | VString _ => Throw TypeError
  | VArray _ => Throw no_contexts
  | VObject props =>
      let users := obj_get props "users" in
      let users := if negb (truthy users) then VArray [] else users in
      users ← (match users with
               | VArray l =>
                   Ok (VArray (l ++ [VObject [("name", VString userName);
                                              ("user", VObject [("token", kubeToken)])]]))
               | _ => Throw TypeError
               end);
      let props := obj_set props "users" users in
      let contexts := obj_get props "contexts" in
      if negb (truthy contexts) then
        Throw no_contexts
      else
        match contexts with
        | VArray l =>
            l ← mapM set_context_user l;
            Ok (VObject (obj_set props "contexts" (VArray l)))
        | _ => Throw TypeError
        end
  end.

(** index.js:174-176: the file [addTokenToKubeConfig] reads. *)
Definition kubeconfig_file (kubeconfigPath : option string) : string :=
  if env_truthy kubeconfigPath then default EmptyString kubeconfigPath
  else homedir_kube_config.

(** index.js:173 *)
Definition addTokenToKubeConfig (kubeconfigPath : option string) (kubeToken : value)
    : M string :=
  let kubeconfigPath := kubeconfig_file kubeconfigPath in
  w ← get_world;
  match fs w !! file_of kubeconfigPath with
  | None =>
      throw (Error "Cannot find a kubeconfig file, which is required when using helm2 with the kube-token option")
  | Some kubeconfigData =>
      kubeconfigContent ← lift (yaml_load kubeconfigData);
      kubeconfigContent ← lift (add_token_user kubeconfigContent kubeToken);
      let newKubeconfigYaml := yaml_dump kubeconfigContent in
      let newKubeconfigPath := "./kubeconfig-with-token.yml" in
      writeFile file_of newKubeconfigPath newKubeconfigYaml;;
      mret newKubeconfigPath
  end.

(** [exec.exec]: the process is spawned, then ends as [exec_exec] says. *)
Definition exec (command : value) (args : list value) (ignoreReturnCode : bool) : M unit :=
  emit (Exec command args);;
  lift (exec_exec command args ignoreReturnCode).

(** [x || "s"] *)
Definition or_default (x : value) (s : string) : value :=
  if truthy x then x else VString s.

(** index.js:222-242 *)
Definition resolve : result Params :=
  let required := Some {| required := true |} in
  track ← getInput "track" None;
  let track := or_default track "stable" in
  appName ← getInput "release" required;
  let release := releaseName appName track in
  namespace ← getInput "namespace" required;
  chart ← getInput "chart" required;
  let chart := chartName chart in
  chartVersion ← getInput "chart-version" None;
  values ← getInput "values" None;
  let values := getValues values in
  task ← getInput "task" None;
  version ← getInput "version" None;
  valueFiles ← getInput "value-files" None;
  let valueFiles := getValueFiles valueFiles in
  removeCanary ← getInput "remove-canary" None;
  helm ← getInput "helm" None;
  let helm := or_default helm "helm" in
  timeout ← getInput "timeout" None;
  repository ← getInput "repository" None;
  repository_password ← getInput "repository-password" None;
  repository_username ← getInput "repository-username" None;
  repository_alias ← getInput "repository-alias" None;
  let dryRun := core_getInput "dry-run" in
  let secrets := getSecrets (VString (core_getInput "secrets")) in
  kubeContext ← getInput "kube-context" None;
  kubeToken ← getInput "kube-token" None;
  mret {| track := track; appName := appName; release := release;
          namespace := namespace; chart := chart; chartVersion := chartVersion;
          values := values; task := task; version := version;
          valueFiles := valueFiles; removeCanary := removeCanary; helm := helm;
          timeout := timeout; repository := repository;
          repository_password := repository_password;
          repository_username := repository_username;
          repository_alias := repository_alias; dryRun := dryRun;
          secrets := secrets; kubeContext := kubeContext; kubeToken := kubeToken |}.

(** index.js:244-264 *)
Definition debug_params (p : Params) : list event :=
  let param (name text : string) := Debug ("param: " +:+ name +:+ " = " +:+ quoted text) in
  [ param "helm" (to_str (helm p));
    param "track" (to_str (track p));
    param "release" (to_str (release p));
    param "appName" (to_str (appName p));
    param "namespace" (to_str (namespace p));
    param "chart" (to_str (chart p));
    param "chart_version" (to_str (chartVersion p));
    param "values" (to_str (values p));
    param "dryRun" (dryRun p);
    param "task" (to_str (task p));
    param "version" (to_str (version p));
    param "secrets" (JSON_stringify (secrets p));
    param "valueFiles" (JSON_stringify (VArray (valueFiles p)));
    Debug ("param: removeCanary = " +:+ to_str (removeCanary p));
    param "timeout" (to_str (timeout p));
    param "repository" (to_str (repository p));
    param "repository_password" (to_str (repository_password p));
    param "repository_username" (to_str (repository_username p));
    param "repository_alias" (to_str (repository_alias p));
    param "kube-context" (to_str (kubeContext p));
    param "kube-token" (to_str (kubeToken p)) ].

(** [if (x) args.push(`flag${x}`)] *)
Definition flag_if (x : value) (flag : string) : list value :=
  if truthy x then [VString (flag +:+ to_str x)] else [].

(** The array [args] as [exec.exec] receives it: the literal of
    index.js:268 and the pushes of lines 287-300, 312 and 316, in order.
    Nothing reads [args] in between. *)
Definition upgradeArgs (p : Params) : list value :=
  [ VString "upgrade"; release p; chart p; VString "--install"; VString "--wait";
    VString "--atomic"; VString ("--namespace=" +:+ to_str (namespace p)) ]
  ++ (if negb (String.eqb (dryRun p) EmptyString) then [VString "--dry-run"] else [])
  ++ flag_if (appName p) "--set=app.name="
  ++ flag_if (version p) "--set=app.version="
  ++ flag_if (chartVersion p) "--version="
  ++ flag_if (timeout p) "--timeout="
  ++ ((fun f => VString ("--values=" +:+ to_str f)) <$> valueFiles p)
  ++ [VString "--values=./values.yml"]
  ++ (if strict_eq_string (track p) "canary"
      then [VString "--set=service.enabled=false"; VString "--set=ingress.enabled=false"]
      else [])
  ++ flag_if (kubeContext p) "--kube-context="
  ++ (if strict_eq_string (helm p) "helm3" then flag_if (kubeToken p) "--kube-token=" else []).

Definition when (c : bool) (m : M unit) : M unit := if c then m else mret tt.

(** index.js:222-374: the body of [run] between its two status reports;
    it returns [task]. *)
Definition deploy : M value :=
  p ← lift resolve;
  emit_all (debug_params p);;
  (if strict_eq_string (helm p) "helm3" then
     set_env "XDG_DATA_HOME" "/root/.helm/";;
     set_env "XDG_CACHE_HOME" "/root/.helm/";;
     set_env "XDG_CONFIG_HOME" "/root/.helm/"
   else set_env "HELM_HOME" "/root/.helm/");;
  w ← get_world;
  (if env_truthy (env w !! "KUBECONFIG_FILE") then
     set_env "KUBECONFIG" "./kubeconfig.yml";;
     writeFile file_of "./kubeconfig.yml" (default EmptyString (env w !! "KUBECONFIG_FILE"))
   else if env_truthy (env w !! "KUBECONFIG_BASE64") then
     set_env "KUBECONFIG" "./kubeconfig.yml";;
     writeFile file_of "./kubeconfig.yml"
       (parseBase64 (default EmptyString (env w !! "KUBECONFIG_BASE64")))
   else mret tt);;
  writeFile_value file_of "./values.yml" (values p);;
  when (truthy (kubeToken p) && negb (strict_eq_string (helm p) "helm3"))
    (w ← get_world;
     path ← addTokenToKubeConfig (env w !! "KUBECONFIG") (kubeToken p);
     set_env "KUBECONFIG" path);;
  w ← get_world;
  emit (Debug ("env: KUBECONFIG=" +:+ quoted (env_str (env w !! "KUBECONFIG"))));;
  when (truthy (repository p) && truthy (repository_alias p))
    (emit (Info "Add repository");;
     exec (helm p)
       ([VString "repo"; VString "add"]
        ++ (if truthy (repository_username p) && truthy (repository_password p)
            then [VString "--username"; repository_username p;
                  VString "--password"; repository_password p]
            else [])
        ++ [repository_alias p; repository p]) false;;
     emit (Info "Update repository");;
     exec (helm p) [VString "repo"; VString "update"] false);;
  renderFiles (valueFiles p ++ [VString "./values.yml"])
    (VObject [("secrets", secrets p); ("deployment", deployment)]);;
  when (truthy (removeCanary p))
    (emit (Info "Remove canary helm chart");;
     emit (Debug ("removing canary " +:+ to_str (appName p) +:+ "-canary"));;
     exec (helm p)
       (deleteCmd (helm p) (namespace p) (VString (to_str (appName p) +:+ "-canary")))
       true);;
  (if strict_eq_string (task p) "remove" then
     emit (Info "Remove helm chart");;
     exec (helm p) (deleteCmd (helm p) (namespace p) (release p)) true
   else
     emit (Info "Install helm chart");;
     exec (helm p) (upgradeArgs p) false);;
  mret (task p).

(** index.js:217.  [core.setFailed] records the failure and prints the
    error once more. *)
Definition run : M unit :=
  try_catch
    (status "pending";;
     task ← deploy;
     status (if strict_eq_string task "remove" then "inactive" else "success"))
    (fun error =>
       emit (ErrorLine error);;
       modify (fun w => with_failed w error);;
       emit (ErrorLine error);;
       status "failure").

End Action.

(** ** The kubeconfig as [yaml.load] builds it *)

(** js-yaml gives an anchor and its aliases one object, and
    [addTokenToKubeConfig] changes the parsed document in place (index.js:190,
    192, 204).  A [node] is a value that tells which object each array and
    each mapping is: [r] is the identity of the object, two nodes with one
    identity are one object held at two places of the document, and what the
    program does to an object shows at every place that holds it.  A document
    in which every identity occurs once has no alias, and is the tree [value]
    stands for.  (A document that holds itself, which an alias to an
    enclosing anchor makes, is not a [node].) *)
Inductive node : Type :=
  | NUndefined
  | NNull
  | NBool (b : bool)
  | NNumber (n : Z)
  | NString (s : string)
  | NArray (r : nat) (elems : list node)
  | NObject (r : nat) (props : list (string * node)).

(** The value a node shows, identities forgotten. *)
Fixpoint tree_of (n : node) : value :=
  match n with
  | NUndefined => VUndefined
  | NNull => VNull
  | NBool b => VBool b
  | NNumber z => VNumber z
  | NString s => VString s
  | NArray _ elems => VArray (tree_of <$> elems)
  | NObject _ props => VObject (prod_map id tree_of <$> props)
  end.

(** The identities of the arrays and mappings of a node, one for each place
    that holds one. *)
Fixpoint refs (n : node) : list nat :=
  match n with
  | NArray r elems => r :: (elems ≫= refs)
  | NObject r props => r :: (props ≫= fun kv => refs kv.2)
  | _ => []
  end.

(** A change [f] made to the object [r], seen from [n]: every place of [n]
    that holds the object shows it. *)
Fixpoint update (r : nat) (f : node -> node) (n : node) : node :=
  match n with
  | NArray r' elems =>
      if (r' =? r)%nat then f n else NArray r' (update r f <$> elems)
  | NObject r' props =>
      if (r' =? r)%nat then f n else NObject r' (prod_map id (update r f) <$> props)
  | _ => n
  end.

(** [obj_get], [obj_set] and [get_prop] on nodes. *)
Fixpoint nobj_get (props : list (string * node)) (name : string) : node :=
  match props with
  | [] => NUndefined
  | (k, v) :: rest => if String.eqb k name then v else nobj_get rest name
  end.

Fixpoint nobj_set (props : list (string * node)) (name : string) (x : node)
    : list (string * node) :=
  match props with
  | [] => [(name, x)]
  | (k, v) :: rest =>
      if String.eqb k name then (k, x) :: rest else (k, v) :: nobj_set rest name x
  end.

Definition node_prop (n : node) (name : string) : result node :=
  match n with
  | NUndefined | NNull => Throw TypeError
  | NBool _ | NNumber _ => Ok NUndefined
  | NString s =>
      if String.eqb name "length" then Ok (NNumber (Z.of_nat (String.length s)))
      else Ok (match index_get (String.list_ascii_of_string s) 0 name with
               | Some c => NString (String c EmptyString)
               | None => NUndefined
               end)
  | NArray _ l =>
      if String.eqb name "length" then Ok (NNumber (Z.of_nat (length l)))
      else Ok (default NUndefined (index_get l 0 name))
  | NObject _ props => Ok (nobj_get props name)
  end.

(** [array.push(x)] and [object[name] = x], as changes to an object. *)
Definition push (x : node) (n : node) : node :=
  match n with
  | NArray r elems => NArray r (elems ++ [x])
  | _ => n
  end.

Definition assign (name : string) (x : node) (n : node) : node :=
  match n with
  | NObject r props => NObject r (nobj_set props name x)
  | _ => n
  end.

(** index.js:203-205, the turn of the loop on the entry at index [i] of
    [kubeconfigContent.contexts]: [context.context.user = userName].  The
    entry is read from the array as it is at that turn; the array is the one
    the loop started on, which the document still holds under [contexts]. *)
Definition set_context_user_at (doc : node) (i : nat) : result node :=
  contexts ← node_prop doc "contexts";
  match contexts with
  | NArray _ elems =>
      match elems !! i with
      | Some context =>
          inner ← node_prop context "context";
          match inner with
          | NUndefined | NNull => Throw TypeError
          | NObject r _ => Ok (update r (assign "user" (NString userName)) doc)
          | _ => Ok doc
          end
      | None => Ok doc
      end
  | _ => Ok doc
  end.

(** [turns] turns of the loop, from the index [i]. *)
Fixpoint set_context_users (doc : node) (i turns : nat) : result node :=
  match turns with
  | 0 => Ok doc
  | S turns => doc ← set_context_user_at doc i; set_context_users doc (S i) turns
  end.

(** index.js:187-205, in place.  The array of line 190 and the two mappings
    of line 192 are new objects: their identities are none of the document
    or of the token. *)
Definition add_token_user_in_place (kubeconfigContent kubeToken : node) : result node :=
  match kubeconfigContent with
  | NUndefined | NNull | NBool _ | NNumber _ | NString _ => Throw TypeError
  | NArray _ _ => Throw no_contexts
  | NObject _ props =>
      let new := S (max_list (refs kubeconfigContent ++ refs kubeToken)) in
      let doc := if negb (truthy (tree_of (nobj_get props "users")))
                 then assign "users" (NArray new []) kubeconfigContent
                 else kubeconfigContent in
      users ← node_prop doc "users";
      match users with
      | NArray r _ =>
          let doc :=
            update r (push (NObject (S new)
                              [("name", NString userName);
                               ("user", NObject (S (S new)) [("token", kubeToken)])])) doc in
          contexts ← node_prop doc "contexts";
          if negb (truthy (tree_of contexts)) then Throw no_contexts
          else match contexts with
               | NArray _ elems => set_context_users doc 0 (length elems)
               | _ => Throw TypeError
               end
      | _ => Throw TypeError
      end
  end.

(** What a result shows, identities forgotten. *)
Definition tree_result (r : result node) : result value := n ← r; Ok (tree_of n).

(** ** mustache.js, in part *)

(** [Mustache.render(template, view, {}, ["${{", "}}"])] for the templates
    that hold text and variable tags only, with names that have no dot and are
    own properties of the view.  A variable tag is [${{], blanks, the name,
    blanks, [}}]; it renders to the HTML-escaped string of the value, and to
    nothing when the value is [undefined] or [null].  Every other template
    (sections, partials, comments, unescaped or delimiter tags, dotted or
    unknown names, a tag that is not closed) is outside this part: [render_from]
    is [None] on it, and [render] throws an error that stands for nothing the
    library does. *)
Module Mustache.

Fixpoint skip_space (s : string) : string :=
  match s with
  | String c rest => if Ascii.is_space c then skip_space rest else s
  | EmptyString => s
  end.

Definition trim_right (s : string) : string := String.rev (skip_space (String.rev s)).

Fixpoint drop_chars (n : nat) (s : string) : string :=
  match n, s with
  | S n, String _ rest => drop_chars n rest
  | _, _ => s
  end.

(** The text before and after the first occurrence of [pat]. *)
Fixpoint split_at (pat s : string) : option (string * string) :=
  if String.prefix pat s then Some (EmptyString, drop_chars (String.length pat) s)
  else match s with
       | EmptyString => None
       | String c rest =>
           match split_at pat rest with
           | Some (before, after) => Some (String c before, after)
           | None => None
           end
       end.

Definition escape_char (c : ascii) : string :=
  if Ascii.eqb c "&" then "&amp;"
  else if Ascii.eqb c "<" then "&lt;"
  else if Ascii.eqb c ">" then "&gt;"
  else if Ascii.eqb c "034" then "&quot;"
  else if Ascii.eqb c "'" then "&#39;"
  else if Ascii.eqb c "/" then "&#x2F;"
  else if Ascii.eqb c "`" then "&#x60;"
  else if Ascii.eqb c "=" then "&#x3D;"
  else String c EmptyString.

Fixpoint escapeHtml (s : string) : string :=
  match s with
  | EmptyString => EmptyString
  | String c rest => escape_char c +:+ escapeHtml rest
  end.

(** The characters that open another kind of tag. *)
Definition is_sigil (c : ascii) : bool :=
  existsb (Ascii.eqb c) ["#"; "^"; "/"; ">"; "{"; "&"; "="; "!"]%char.

Fixpoint own_property (props : list (string * value)) (name : string) : option value :=
  match props with
  | [] => None
  | (k, v) :: rest => if String.eqb k name then Some v else own_property rest name
  end.

Definition render_value (v : value) : string :=
  match v with
  | VUndefined | VNull => EmptyString
  | _ => escapeHtml (to_str v)
  end.

Fixpoint render_from (fuel : nat) (template : string) (view : list (string * value))
    : option string :=
  match fuel with
  | O => None
  | S fuel =>
      match split_at "${{" template with
      | None => Some template
      | Some (text, rest) =>
          match skip_space rest with
          | EmptyString => None
          | String c _ as tag =>
              if is_sigil c then None
              else
                '(inner, after) ← split_at "}}" tag;
                let name := trim_right inner in
                if includes name "." then None
                else
                  v ← own_property view name;
                  out ← render_from fuel after view;
                  Some (text +:+ render_value v +:+ out)
          end
      end
  end.

Definition render (template : string) (view : value) : result string :=
  match view with
  | VObject props =>
      match render_from (S (String.length template)) template props with
      | Some out => Ok out
      | None => Throw (Error "a template outside the modelled part of mustache.js")
      end
  | _ => Throw (Error "a template outside the modelled part of mustache.js")
  end.

End Mustache.

(** ** What the properties speak of *)

(** The world [run] leaves, given what the deployment between the two
    status reports did: the failure is recorded when the deployment threw. *)
Definition outcome (r : result value * World * list event) : World :=
  match r with
  | (Ok _, w, _) => w
  | (Throw e, w, _) => with_failed w e
  end.

(** The two flags of a canary release. *)
Definition service_off : value := VString "--set=service.enabled=false".
Definition ingress_off : value := VString "--set=ingress.enabled=false".

(** [context.context.user] of an entry of [contexts] *)
Definition context_user (context : value) : result value :=
  inner ← get_prop context "context";
  get_prop inner "user".

(** An entry of [contexts] as a kubeconfig has them: a mapping whose
    [context] is a mapping. *)
Definition is_context (context : value) : bool :=
  match context with
  | VObject props =>
      match obj_get props "context" with
      | VObject _ => true
      | _ => false
      end
  | _ => false
  end.

(** The user [addTokenToKubeConfig] appends. *)
Definition identity (kubeToken : value) : value :=
  VObject [("name", VString userName); ("user", VObject [("token", kubeToken)])].

(** index.js:106-116: the workflow input [getInput] starts from, read under
    [name] and, when that is empty and the name has a dash, under the name with
    its first dash turned into an underscore. *)
Definition core_input (core_getInput : string -> string) (name : string) : string :=
  let val := core_getInput name in
  if (String.length val =? 0)%nat && includes name "-"%char
  then core_getInput (replace name "-"%char "_"%char)
  else val.

(** [{ required: true }] *)
Definition required_input : option InputOptions := Some {| required := true |}.

(** The inputs [run] resolves with [getInput] (index.js:222-238 and 241-242),
    the ones a deployment event can override: every input of the action but
    [dry-run] and [secrets], which [run] reads with [core.getInput]
    (index.js:239-240), and [token], which [status] reads. *)
Definition event_inputs : list string :=
  ["track"; "release"; "namespace"; "chart"; "chart-version"; "values"; "task";
   "version"; "value-files"; "remove-canary"; "helm"; "timeout"; "repository";
   "repository-password"; "repository-username"; "repository-alias";
   "kube-context"; "kube-token"].

(** The members a mapping inherits: the properties of [Object.prototype] that
    have a string for a name.  Reading one of these names on a mapping that
    does not define it gives the inherited member, not [undefined]. *)
Definition Object_prototype : list string :=
  ["constructor"; "__defineGetter__"; "__defineSetter__"; "hasOwnProperty";
   "__lookupGetter__"; "__lookupSetter__"; "isPrototypeOf"; "propertyIsEnumerable";
   "toString"; "valueOf"; "__proto__"; "toLocaleString"].

(** The tokens of the command that a flag with a prefix of its own builds. *)
Definition has_prefix (prefix : string) (v : value) : Prop :=
  exists rest, v = VString (prefix +:+ rest).

(** Two entries of [contexts] that differ at most in [context.user]. *)
Definition same_but_user (context context' : value) : Prop :=
  (forall name, name <> "context" -> get_prop context' name = get_prop context name)
  /\ (forall name, name <> "user" ->
        (inner ← get_prop context' "context"; get_prop inner name)
        = (inner ← get_prop context "context"; get_prop inner name)).

(** The error of [addTokenToKubeConfig] on a missing file. *)
Definition not_found : exn :=
  Error "Cannot find a kubeconfig file, which is required when using helm2 with the kube-token option".

(** An entry of [contexts] that has no [context] to write to. *)
Definition no_inner_context (context : value) : Prop :=
  get_prop context "context" = Throw TypeError
  \/ get_prop context "context" = Ok VUndefined
  \/ get_prop context "context" = Ok VNull.

(** The final report of a run, from what [deploy] returned or threw. *)
Definition final_state (r : result value) : string :=
  match r with
  | Ok task => if strict_eq_string task "remove" then "inactive" else "success"
  | Throw _ => "failure"
  end.

(** [w'] differs from [w] at most in the files [F] and the environment
    variables [E]; the recorded failure is the same. *)
Definition unchanged_outside (F E : string -> Prop) (w w' : World) : Prop :=
  (forall file, ~ F file -> fs w' !! file = fs w !! file)
  /\ (forall name, ~ E name -> env w' !! name = env w !! name)
  /\ failed w' = failed w.

(** A computation that, from every state, changes at most [F] and [E] and
    emits events of [Q] only. *)
Definition keeps {A : Type} (F E : string -> Prop) (Q : event -> Prop) (m : M A) : Prop :=
  forall w, unchanged_outside F E w (m w).1.2 /\ Forall Q (m w).2.

(** The files [deploy] may write, for the request [p], and the environment
    variables it may set. *)
Definition deploy_files (file_of : string -> string) (p : Params) (file : string) : Prop :=
  file = file_of "./kubeconfig.yml" \/ file = file_of "./values.yml"
  \/ file = file_of "./kubeconfig-with-token.yml"
  \/ exists path, VString path ∈ valueFiles p /\ file = file_of path.

Definition helm_env (name : string) : Prop :=
  name = "XDG_DATA_HOME" \/ name = "XDG_CACHE_HOME" \/ name = "XDG_CONFIG_HOME"
  \/ name = "HELM_HOME".

Definition deploy_env (name : string) : Prop := helm_env name \/ name = "KUBECONFIG".

(** The events of [deploy], for the request [p]: debug and info lines, and
    processes of the resolved helm that add or update a repository, delete a
    release or, unless the task is [remove], run the upgrade command. *)
Definition deploy_event (p : Params) (ev : event) : Prop :=
  match ev with
  | Debug _ | Info _ => True
  | Exec command args =>
      command = helm p
      /\ (head args = Some (VString "repo") \/ head args = Some (VString "delete")
          \/ (args = upgradeArgs p /\ strict_eq_string (task p) "remove" = false))
  | Warning _ _ | ErrorLine _ | DeploymentStatus _ _ _ => False
  end.

(** The events of a status report. *)
Definition status_event (ev : event) : Prop :=
  match ev with
  | Debug _ | Warning _ _ | DeploymentStatus _ _ _ => True
  | Info _ | ErrorLine _ | Exec _ _ => False
  end.

(** The states of the deployment statuses posted, in order. *)
Definition posted (out : list event) : list string :=
  omap (fun ev => match ev with DeploymentStatus _ state _ => Some state | _ => None end) out.

(** The processes spawned, in order. *)
Definition spawned (out : list event) : list (value * list value) :=
  omap (fun ev => match ev with Exec command args => Some (command, args) | _ => None end) out.

Section DeployRest.

Variable deployment : value.
Variable JSON_stringify : value -> string.
Variable Mustache_render : string -> value -> result string.
Variable base64_decode : string -> string.
Variable homedir_kube_config : string.
Variable yaml_load : string -> result value.
Variable yaml_dump : value -> string.
Variable exec_exec : value -> list value -> bool -> result unit.
Variable file_of : string -> string.

(** index.js:302-374: the steps of [deploy] once the request [p] is resolved
    and the environment of helm is set. *)
Definition deploy_files_and_helm (p : Params) : M value :=
  w ← get_world;
  (if env_truthy (env w !! "KUBECONFIG_FILE") then
     set_env "KUBECONFIG" "./kubeconfig.yml";;
     writeFile file_of "./kubeconfig.yml" (default EmptyString (env w !! "KUBECONFIG_FILE"))
   else if env_truthy (env w !! "KUBECONFIG_BASE64") then
     set_env "KUBECONFIG" "./kubeconfig.yml";;
     writeFile file_of "./kubeconfig.yml"
       (parseBase64 base64_decode (default EmptyString (env w !! "KUBECONFIG_BASE64")))
   else mret tt);;
  writeFile_value file_of "./values.yml" (values p);;
  when (truthy (kubeToken p) && negb (strict_eq_string (helm p) "helm3"))
    (w ← get_world;
     path ← addTokenToKubeConfig homedir_kube_config yaml_load yaml_dump file_of
              (env w !! "KUBECONFIG") (kubeToken p);
     set_env "KUBECONFIG" path);;
  w ← get_world;
  emit (Debug ("env: KUBECONFIG=" +:+ quoted (env_str (env w !! "KUBECONFIG"))));;
  when (truthy (repository p) && truthy (repository_alias p))
    (emit (Info "Add repository");;
     exec exec_exec (helm p)
       ([VString "repo"; VString "add"]
        ++ (if truthy (repository_username p) && truthy (repository_password p)
            then [VString "--username"; repository_username p;
                  VString "--password"; repository_password p]
            else [])
        ++ [repository_alias p; repository p]) false;;
     emit (Info "Update repository");;
     exec exec_exec (helm p) [VString "repo"; VString "update"] false);;
  renderFiles JSON_stringify Mustache_render file_of
    (valueFiles p ++ [VString "./values.yml"])
    (VObject [("secrets", secrets p); ("deployment", deployment)]);;
  when (truthy (removeCanary p))
    (emit (Info "Remove canary helm chart");;
     emit (Debug ("removing canary " +:+ to_str (appName p) +:+ "-canary"));;
     exec exec_exec (helm p)
       (deleteCmd (helm p) (namespace p) (VString (to_str (appName p) +:+ "-canary")))
       true);;
  (if strict_eq_string (task p) "remove" then
     emit (Info "Remove helm chart");;
     exec exec_exec (helm p) (deleteCmd (helm p) (namespace p) (release p)) true
   else
     emit (Info "Install helm chart");;
     exec exec_exec (helm p) (upgradeArgs p) false);;
  mret (task p).

(** index.js:279-285 *)
Definition set_helm_env (p : Params) : M unit :=
  if strict_eq_string (helm p) "helm3" then
    set_env "XDG_DATA_HOME" "/root/.helm/";;
    set_env "XDG_CACHE_HOME" "/root/.helm/";;
    set_env "XDG_CONFIG_HOME" "/root/.helm/"
  else set_env "HELM_HOME" "/root/.helm/".

End DeployRest.

(** ** Inputs of the examples *)

(** The texts of the two examples of the specification, and a parser that
    reads them as [JSON.parse] does. *)
Definition text_ab : string := "[" +:+ quoted "a.yml" +:+ "," +:+ quoted "b.yml" +:+ "]".

Definition parse_examples (s : string) : option value :=
  if String.eqb s text_ab then Some (VArray [VString "a.yml"; VString "b.yml"]) else None.

(** The inputs of the example of the specification, and the request they
    resolve to. *)
Definition canary_inputs (name : string) : string :=
  if String.eqb name "release" then "api"
  else if String.eqb name "track" then "canary"
  else if String.eqb name "namespace" then "prod"
  else if String.eqb name "chart" then "app"
  else EmptyString.

Definition canary_request : Params :=
  {| track := VString "canary"; appName := VString "api"; release := VString "api-canary";
     namespace := VString "prod"; chart := VString "/usr/src/charts/app";
     chartVersion := VString ""; values := VString "{}"; task := VString "";
     version := VString ""; valueFiles := []; removeCanary := VString "";
     helm := VString "helm"; timeout := VString ""; repository := VString "";
     repository_password := VString ""; repository_username := VString "";
     repository_alias := VString ""; dryRun := EmptyString; secrets := VString "";
     kubeContext := VString ""; kubeToken := VString "" |}.

(** The same inputs with [values.yml] for a value file: another spelling of
    the file [run] writes the values to. *)
Definition value_file_inputs (name : string) : string :=
  if String.eqb name "value-files" then "values.yml" else canary_inputs name.

(** Inputs that name the release and the chart as the two flags spell. *)
Definition flag_inputs (name : string) : string :=
  if String.eqb name "release" then "--set=service.enabled=false"
  else if String.eqb name "chart" then "--set=ingress.enabled=false"
  else if String.eqb name "namespace" then "prod"
  else EmptyString.

(** Inputs set under the underscore spelling only. *)
Definition underscore_inputs (name : string) : string :=
  if String.eqb name "chart_version" then "1.2.3"
  else if String.eqb name "a_b-c" then "first dash"
  else EmptyString.

(** A kubeconfig with an empty list of contexts, one with two contexts and
    one without the section; the parser and the printer are stand-ins that
    know these documents. *)
Definition empty_contexts : value := VObject [("contexts", VArray [])].

Definition dev_prod : list value :=
  [VObject [("name", VString "dev");
            ("context", VObject [("cluster", VString "a"); ("user", VString "alice")])];
   VObject [("name", VString "prod"); ("context", VObject [("cluster", VString "b")])]].

Definition two_contexts : value := VObject [("contexts", VArray dev_prod)].

Definition clusters_only : value := VObject [("clusters", VArray []); ("users", VNull)].

Definition yaml_empty : string := "contexts: []".
Definition yaml_two : string :=
  "contexts: [{name: dev, context: {cluster: a, user: alice}}, {name: prod, context: {cluster: b}}]".
Definition yaml_clusters : string := "{clusters: [], users: null}".

Definition load_examples (data : string) : result value :=
  if String.eqb data yaml_empty then Ok empty_contexts
  else if String.eqb data yaml_two then Ok two_contexts
  else if String.eqb data yaml_clusters then Ok clusters_only
  else Throw (Error "bad indentation of a mapping entry").

Definition dump_examples (document : value) : string :=
  match document with
  | VObject props => "contexts: " +:+ to_str (VNumber (Z.of_nat
                       match obj_get props "contexts" with
                       | VArray l => length l
                       | _ => 0
                       end))
  | _ => "?"
  end.

Definition disk (data : string) : World :=
  {| fs := {["./kubeconfig.yml" := data]}; env := ∅; failed := None |}.


(** A kubeconfig that has a user already, and a request for helm 3 with a
    token. *)
Definition alice : value :=
  VObject [("name", VString "alice"); ("user", VObject [("token", VString "old")])].

Definition with_alice : list (string * value) :=
  [("clusters", VArray []); ("users", VArray [alice]); ("contexts", VArray dev_prod)].

(** The same kubeconfig as [yaml.load] builds it from a text without aliases,
    and one whose [users] is an alias of its [clusters]
    ([clusters: &shared []], [users: *shared]). *)
Definition alice_document : node :=
  NObject 0
    [("clusters", NArray 1 []);
     ("users", NArray 2 [NObject 3 [("name", NString "alice");
                                    ("user", NObject 4 [("token", NString "old")])]]);
     ("contexts",
      NArray 5 [NObject 6 [("name", NString "dev");
                           ("context", NObject 7 [("cluster", NString "a");
                                                  ("user", NString "alice")])];
                NObject 8 [("name", NString "prod");
                           ("context", NObject 9 [("cluster", NString "b")])]])].

Definition shared_users : node :=
  NObject 0 [("clusters", NArray 1 []); ("users", NArray 1 []); ("contexts", NArray 2 [])].

Definition helm3_request : Params :=
  {| track := VString "stable"; appName := VString "api"; release := VString "api";
     namespace := VString "prod"; chart := VString "/usr/src/charts/app";
     chartVersion := VString ""; values := VString "{}"; task := VString "";
     version := VString ""; valueFiles := [VString "a.yml"]; removeCanary := VString "";
     helm := VString "helm3"; timeout := VString ""; repository := VString "";
     repository_password := VString ""; repository_username := VString "";
     repository_alias := VString ""; dryRun := EmptyString; secrets := VString "";
     kubeContext := VString ""; kubeToken := VString "t0k3n" |}.

(** A system in which every path is a file of its own, and one in which a
    path of the working directory names the same file with a leading [./] and
    without. *)
Definition as_spelled (path : string) : string := path.

Definition without_dot (path : string) : string :=
  match path with
  | String "."%char (String "/"%char rest) => rest
  | _ => path
  end.

(** The processes end well. *)
Definition exec_ok (command : value) (args : list value) (ignoreReturnCode : bool)
    : result unit := Ok tt.

(** A secret that is itself a template, and one that is not; [JSON.stringify]
    only feeds a debug line. *)
Definition secrets_view : value :=
  VObject [("secrets", VString "x${{secrets}}"); ("deployment", VUndefined)].

Definition values_disk : World :=
  {| fs := {["./values.yml" := "${{secrets}}"]}; env := ∅; failed := None |}.

Definition password_view : value :=
  VObject [("secrets", VString "s3cr3t"); ("deployment", VUndefined)].

Definition password_disk : World :=
  {| fs := {["./values.yml" := "password: ${{ secrets }}"]}; env := ∅; failed := None |}.

Definition no_json (v : value) : string := EmptyString.

(** A client that cannot be built and a request that fails, for a run that
    has a token and a deployment event. *)
Definition failing_client (token : string) : result unit := Throw (Error "Bad credentials").
Definition failing_request (id : value) (state url : string) : result unit :=
  Throw (Error "connect ETIMEDOUT").
Definition token_input (name : string) : string :=
  if String.eqb name "token" then "ghp" else EmptyString.
Definition event_7 : value := VObject [("id", VNumber 7); ("payload", VObject [])].
Definition blank : World := {| fs := ∅; env := ∅; failed := None |}.

(** ** Parameter resolution: [getInput] *)

Section GetInput.

Variable core_getInput : string -> string.
Variable deployment : value.
Variable JSON_parse : string -> option value.
Variable JSON_stringify : value -> string.

Lemma get_prop_truthy (v : value) (name : string) :
  truthy v = true -> exists x, get_prop v name = Ok x.
Proof.
  destruct v; simpl; try discriminate; intros _; eauto;
    destruct (String.eqb name "length"); eauto.
Qed.

(** No input that [getInput] resolves is a member a mapping inherits, so on a
    mapping [get_prop] reads these names as the program does. *)
Lemma event_inputs_own (name : string) : name ∈ event_inputs -> name ∉ Object_prototype.
Proof.
  unfold event_inputs. intros Hin Hproto.
  repeat (apply elem_of_cons in Hin as [-> | Hin];
          [revert Hproto; unfold Object_prototype; rewrite !elem_of_cons, elem_of_nil;
           intros Hproto; repeat destruct Hproto as [Hproto | Hproto];
           solve [discriminate Hproto | destruct Hproto] |]).
  now apply elem_of_nil in Hin.
Qed.

(** index.js:239-240: [dry-run] and [secrets] do not go through [getInput];
    what the deployment event defines for them is not read. *)
Lemma resolve_configured_only (p : Params) :
  resolve core_getInput deployment JSON_parse JSON_stringify = Ok p ->
  dryRun p = core_getInput "dry-run"
  /\ secrets p = getSecrets JSON_parse (VString (core_getInput "secrets")).
Proof.
  unfold resolve. intros H.
  repeat match type of H with
         | context [mbind _ (getInput ?a ?b ?n ?o)] =>
             destruct (getInput a b n o) as [? | ?];
             [ change (mbind ?f (Ok ?v)) with (f v) in H; cbv beta in H | discriminate H ]
         end.
  injection H as <-. split; reflexivity.
Qed.

Lemma getInput_event_value (name : string) (options : option InputOptions)
    (top payload nested : value) :
  truthy deployment = true ->
  get_prop deployment name = Ok top ->
  get_prop deployment "payload" = Ok payload ->
  get_prop payload name = Ok nested ->
  truthy top || truthy nested = true ->
  getInput core_getInput deployment name options
  = Ok (if truthy nested then nested else top).
Proof.
  intros Hd Htop Hpayload Hnested Htruthy.
  unfold getInput. rewrite Hd, Htop. simpl. rewrite Hpayload. simpl.
  rewrite Hnested. simpl.
  destruct (truthy nested) eqn:Hn.
  - rewrite Hn. rewrite andb_false_r. reflexivity.
  - rewrite orb_false_r in Htruthy. rewrite Htruthy. simpl.
    rewrite Htruthy. rewrite andb_false_r. reflexivity.
Qed.

(** C1, as amended: for every input that [run] resolves with [getInput] (every
    input but [dry-run] and [secrets]), when the deployment event, a mapping
    whose payload is a mapping, defines the field with a truthy value at its
    top level or in its payload, [getInput] returns the event's value (the
    payload's when that one is truthy, the top-level one otherwise), whatever
    the workflow inputs and the environment hold for that name.  [dry-run]
    and [secrets] are resolved from the workflow input alone, whatever the
    event defines for them. *)
Theorem getInput_event_value_takes_precedence :
  (forall (name : string) (options : option InputOptions)
          (event fields : list (string * value)),
     deployment = VObject event ->
     obj_get event "payload" = VObject fields ->
     name ∈ event_inputs ->
     truthy (obj_get event name) || truthy (obj_get fields name) = true ->
     getInput core_getInput deployment name options
     = Ok (if truthy (obj_get fields name) then obj_get fields name
           else obj_get event name))
  /\ (forall p : Params,
        resolve core_getInput deployment JSON_parse JSON_stringify = Ok p ->
        dryRun p = core_getInput "dry-run"
        /\ secrets p = getSecrets JSON_parse (VString (core_getInput "secrets"))).
Proof.
  split; [| apply resolve_configured_only].
  intros name options event fields Hd Hpayload _ Htruthy.
  apply (getInput_event_value name options (obj_get event name) (VObject fields)
           (obj_get fields name)); rewrite ?Hd; simpl; rewrite ?Hpayload; auto.
Qed.

(** C4, as amended: when the payload of the deployment event defines the
    field with a truthy value, [getInput] returns that value, whatever the top
    level of the event and the workflow inputs define for the name.  [run]
    resolves every input with [getInput] but [dry-run] and [secrets], which
    are the workflow inputs whatever the payload defines for them. *)
Theorem getInput_nested_value_wins :
  (forall (name : string) (options : option InputOptions) (payload nested : value),
     truthy deployment = true ->
     get_prop deployment "payload" = Ok payload ->
     get_prop payload name = Ok nested ->
     truthy nested = true ->
     getInput core_getInput deployment name options = Ok nested)
  /\ (forall p : Params,
        resolve core_getInput deployment JSON_parse JSON_stringify = Ok p ->
        dryRun p = core_getInput "dry-run"
        /\ secrets p = getSecrets JSON_parse (VString (core_getInput "secrets"))).
Proof.
  split; [| apply resolve_configured_only].
  intros name options payload nested Hd Hpayload Hnested Hn.
  destruct (get_prop_truthy deployment name Hd) as [top Htop].
  unfold getInput. rewrite Hd, Htop. simpl. rewrite Hpayload. simpl.
  rewrite Hnested. simpl. rewrite Hn. simpl. rewrite Hn.
  now rewrite andb_false_r.
Qed.

(** C10: when a deployment event is present and has no [payload] (the
    property is absent or [null]), [getInput] throws a TypeError for every
    name, required or not, whatever the workflow inputs supply. *)
Theorem getInput_throws_without_payload (name : string) (options : option InputOptions) :
  truthy deployment = true ->
  get_prop deployment "payload" = Ok VUndefined \/ get_prop deployment "payload" = Ok VNull ->
  getInput core_getInput deployment name options = Throw TypeError.
Proof.
  intros Hd Hpayload.
  destruct (get_prop_truthy deployment name Hd) as [top Htop].
  unfold getInput. rewrite Hd, Htop. simpl.
  destruct Hpayload as [-> | ->]; reflexivity.
Qed.

End GetInput.

(** C1, as stated, fails: the event defines [track] as the empty string and
    the workflow input [track] is [canary]; [getInput] returns the input's
    value, not the event's. *)
Lemma getInput_empty_event_value_is_ignored :
  let deployment := VObject [("track", VString ""); ("payload", VObject [])] in
  get_prop deployment "track" = Ok (VString "")
  /\ getInput (fun _ => "canary") deployment "track" None = Ok (VString "canary").
Proof. split; reflexivity. Qed.

Lemma getInput_event_value_takes_precedence_witness :
  getInput (fun _ => "canary")
    (VObject [("track", VString "beta"); ("payload", VObject [])]) "track" None
  = Ok (VString "beta").
Proof.
  apply (proj1 (getInput_event_value_takes_precedence (fun _ => "canary")
                  (VObject [("track", VString "beta"); ("payload", VObject [])])
                  (fun _ => None) (fun _ => EmptyString))
           "track" None [("track", VString "beta"); ("payload", VObject [])] []);
    try reflexivity.
  apply elem_of_cons. now left.
Defined.

(** C4, as stated, fails: [track] is defined at the top level of the event
    as [canary] and in its payload as the empty string; [getInput] returns the
    top-level value, not the payload's. *)
Lemma getInput_empty_nested_value_loses :
  let deployment :=
    VObject [("track", VString "canary"); ("payload", VObject [("track", VString "")])] in
  (payload ← get_prop deployment "payload"; get_prop payload "track") = Ok (VString "")
  /\ getInput (fun _ => "") deployment "track" None = Ok (VString "canary").
Proof. split; reflexivity. Qed.

Lemma getInput_nested_value_wins_witness :
  getInput (fun _ => "stable")
    (VObject [("track", VString "canary"); ("payload", VObject [("track", VString "beta")])])
    "track" None
  = Ok (VString "beta").
Proof.
  apply (proj1 (getInput_nested_value_wins (fun _ => "stable")
                  (VObject [("track", VString "canary");
                            ("payload", VObject [("track", VString "beta")])])
                  (fun _ => None) (fun _ => EmptyString))
           "track" None (VObject [("track", VString "beta")]) (VString "beta"));
    reflexivity.
Defined.

Lemma getInput_throws_without_payload_witness :
  getInput (fun _ => "api") (VObject [("id", VNumber 7)]) "release"
    (Some {| required := true |})
  = Throw TypeError.
Proof.
  apply (getInput_throws_without_payload (fun _ => "api") (VObject [("id", VNumber 7)])
           "release" (Some {| required := true |})).
  - reflexivity.
  - left. reflexivity.
Defined.

(** ** Release names *)

(** C5: the release name is the application name followed by [-] and the
    track when the track is not [stable], and the application name itself
    when it is. *)
Theorem releaseName_spec (name track : string) :
  (track <> "stable" ->
   releaseName (VString name) (VString track) = VString (name +:+ "-" +:+ track))
  /\ releaseName (VString name) (VString "stable") = VString name.
Proof.
  split; [intros Hne | reflexivity].
  unfold releaseName. simpl.
  destruct (String.eqb_spec track "stable") as [Heq | _]; [contradiction | reflexivity].
Qed.

Lemma releaseName_spec_witness :
  releaseName (VString "api") (VString "canary") = VString "api-canary".
Proof.
  apply (proj1 (releaseName_spec "api" "canary")). discriminate.
Defined.

(** ** Value files *)

Section ValueFiles.

Variable JSON_parse : string -> option value.

Lemma getValueFiles_array (l : list value) :
  getValueFiles JSON_parse (VArray l) = filter is_truthy l.
Proof. reflexivity. Qed.

Lemma filter_truthy_id (l : list value) :
  Forall is_truthy l -> filter is_truthy l = l.
Proof.
  induction 1 as [| x l Hx _ IH]; [reflexivity |].
  rewrite filter_cons_True by exact Hx. now rewrite IH.
Qed.

(** C7: a text that parses as an array resolves to the entries of the array,
    a text that does not parse to the text as the only entry, and in each case
    (as for a list given as such) what is returned is the truthy entries in
    their order; so an array of non-empty names comes back as it is, and a
    non-empty text that does not parse comes back as a one-entry list. *)
Theorem getValueFiles_spec :
  (forall s l, JSON_parse s = Some (VArray l) ->
     getValueFiles JSON_parse (VString s) = filter is_truthy l)
  /\ (forall s, JSON_parse s = None ->
        getValueFiles JSON_parse (VString s) = filter is_truthy [VString s])
  /\ (forall s l, JSON_parse s = Some (VArray l) -> Forall is_truthy l ->
        getValueFiles JSON_parse (VString s) = l)
  /\ (forall s, JSON_parse s = None -> s <> EmptyString ->
        getValueFiles JSON_parse (VString s) = [VString s])
  /\ (forall l, getValueFiles JSON_parse (VArray l) = filter is_truthy l)
  /\ (forall l, sublist (filter is_truthy l) l
        /\ forall f, f ∈ filter is_truthy l <-> is_truthy f /\ f ∈ l).
Proof.
  split_and!.
  - intros s l Hs. unfold getValueFiles. rewrite Hs. reflexivity.
  - intros s Hs. unfold getValueFiles. rewrite Hs. reflexivity.
  - intros s l Hs Hl. unfold getValueFiles. rewrite Hs. simpl.
    apply filter_truthy_id, Hl.
  - intros s Hs Hne. unfold getValueFiles. rewrite Hs. simpl.
    apply filter_truthy_id. constructor; [| constructor].
    unfold is_truthy. simpl.
    destruct (String.eqb_spec s EmptyString); [contradiction | reflexivity].
  - apply getValueFiles_array.
  - intros l. split; [apply sublist_filter |].
    intros f. apply list_elem_of_filter.
Qed.

End ValueFiles.

Lemma getValueFiles_spec_witness :
  getValueFiles parse_examples (VString text_ab) = [VString "a.yml"; VString "b.yml"]
  /\ getValueFiles parse_examples (VString "c.yml") = [VString "c.yml"].
Proof.
  pose proof (getValueFiles_spec parse_examples) as (_ & _ & Harray & Htext & _).
  split.
  - apply Harray; [reflexivity | repeat constructor].
  - apply Htext; [reflexivity | discriminate].
Defined.

(** ** The upgrade command *)

Lemma flag_if_prefix (x : value) (flag : string) (v : value) :
  v ∈ flag_if x flag -> exists rest, v = VString (flag +:+ rest).
Proof.
  unfold flag_if. destruct (truthy x).
  - intros ->%list_elem_of_singleton. eauto.
  - intros []%elem_of_nil.
Qed.

(** A token built from a fixed prefix is none of the two flags. *)
Ltac other_flag Hin Htok :=
  first [ apply flag_if_prefix in Hin as [? ->]
        | apply list_elem_of_fmap in Hin as (? & -> & _)
        | apply list_elem_of_singleton in Hin; subst ];
  destruct Htok as [Htok | Htok]; discriminate Htok.

(** Where one of the two flags can stand in the command when the track is
    not [canary]: in the second or the third place only. *)
Lemma canary_flag_origin (p : Params) (tok : value) :
  tok = service_off \/ tok = ingress_off ->
  strict_eq_string (track p) "canary" = false ->
  tok ∈ upgradeArgs p ->
  release p = tok \/ chart p = tok.
Proof.
  intros Htok Htrack Hin. unfold upgradeArgs in Hin. rewrite Htrack in Hin.
  repeat (apply elem_of_app in Hin as [Hin | Hin]).
  - repeat (apply elem_of_cons in Hin as [Hin | Hin]); auto;
      try (destruct Htok; subst; discriminate).
    apply elem_of_nil in Hin as [].
  - destruct (negb _); [other_flag Hin Htok | now apply elem_of_nil in Hin].
  - other_flag Hin Htok.
  - other_flag Hin Htok.
  - other_flag Hin Htok.
  - other_flag Hin Htok.
  - other_flag Hin Htok.
  - other_flag Hin Htok.
  - now apply elem_of_nil in Hin.
  - other_flag Hin Htok.
  - destruct (strict_eq_string (helm p) "helm3"); [other_flag Hin Htok |].
    now apply elem_of_nil in Hin.
Qed.

Lemma canary_flags_present (p : Params) :
  strict_eq_string (track p) "canary" = true ->
  service_off ∈ upgradeArgs p /\ ingress_off ∈ upgradeArgs p.
Proof.
  intros Htrack. unfold upgradeArgs. rewrite Htrack.
  split; rewrite !elem_of_app; do 8 right; left.
  - apply elem_of_cons. now left.
  - apply elem_of_cons. right. apply elem_of_cons. now left.
Qed.

(** C6, as amended: for every resolved request whose release name and chart
    are not themselves one of the two flags, the upgrade command holds
    [--set=service.enabled=false] and [--set=ingress.enabled=false] if and
    only if the track is [canary], and holds neither for any other track. *)
Theorem upgradeArgs_canary_flags (p : Params) :
  release p <> service_off -> release p <> ingress_off ->
  chart p <> service_off -> chart p <> ingress_off ->
  (service_off ∈ upgradeArgs p /\ ingress_off ∈ upgradeArgs p
   <-> strict_eq_string (track p) "canary" = true)
  /\ (strict_eq_string (track p) "canary" = false ->
      (service_off ∉ upgradeArgs p) /\ (ingress_off ∉ upgradeArgs p)).
Proof.
  intros Hrs Hri Hcs Hci.
  assert (Hother : strict_eq_string (track p) "canary" = false ->
                   (service_off ∉ upgradeArgs p) /\ (ingress_off ∉ upgradeArgs p)).
  { intros Htrack. split; intros Hin;
      (eapply canary_flag_origin in Hin as [H | H]; [| | | exact Htrack]; eauto). }
  split; [| exact Hother].
  split.
  - intros [Hs _]. destruct (strict_eq_string (track p) "canary") eqn:Htrack; [reflexivity |].
    destruct (Hother eq_refl) as [Hno _]. contradiction.
  - apply canary_flags_present.
Qed.

Example resolve_canary_inputs :
  resolve canary_inputs VUndefined (fun _ => None) (fun _ => EmptyString) = Ok canary_request.
Proof. reflexivity. Qed.

Example upgradeArgs_canary_request :
  upgradeArgs canary_request
  = [VString "upgrade"; VString "api-canary"; VString "/usr/src/charts/app";
     VString "--install"; VString "--wait"; VString "--atomic"; VString "--namespace=prod";
     VString "--set=app.name=api"; VString "--values=./values.yml";
     service_off; ingress_off].
Proof. reflexivity. Qed.

Lemma upgradeArgs_canary_flags_witness :
  service_off ∈ upgradeArgs canary_request /\ ingress_off ∈ upgradeArgs canary_request.
Proof.
  apply (upgradeArgs_canary_flags canary_request); [discriminate .. | reflexivity].
Defined.

(** C6, as stated, fails: with no track given (so [stable]) and a release
    and a chart named as the two flags are spelled, the upgrade command holds
    both tokens. *)
Lemma upgradeArgs_flags_on_stable_track :
  exists p,
    resolve flag_inputs VUndefined (fun _ => None) (fun _ => EmptyString) = Ok p
    /\ track p = VString "stable"
    /\ service_off ∈ upgradeArgs p /\ ingress_off ∈ upgradeArgs p.
Proof.
  eexists. split; [reflexivity |]. split; [reflexivity |].
  split; unfold upgradeArgs; simpl.
  - apply elem_of_cons. right. apply elem_of_cons. now left.
  - apply elem_of_cons. right. apply elem_of_cons. right. apply elem_of_cons. now left.
Qed.

(** ** The kubeconfig with a token *)

Lemma obj_get_set (props : list (string * value)) (name : string) (x : value) :
  obj_get (obj_set props name x) name = x.
Proof.
  induction props as [| [k v] rest IH]; simpl.
  - now rewrite String.eqb_refl.
  - destruct (String.eqb k name) eqn:Hk; simpl; rewrite Hk; [reflexivity | exact IH].
Qed.

Lemma obj_get_set_ne (props : list (string * value)) (name other : string) (x : value) :
  name <> other -> obj_get (obj_set props name x) other = obj_get props other.
Proof.
  intros Hne. induction props as [| [k v] rest IH]; simpl.
  - destruct (String.eqb_spec name other); [contradiction | reflexivity].
  - destruct (String.eqb_spec k name) as [-> | Hk]; simpl.
    + destruct (String.eqb_spec name other); [contradiction | reflexivity].
    + now rewrite IH.
Qed.

Lemma set_context_user_ok (context : value) :
  is_context context = true ->
  exists context', set_context_user context = Ok context'
                   /\ context_user context' = Ok (VString userName).
Proof.
  destruct context as [| | | | | |props]; try discriminate. simpl.
  unfold set_context_user. simpl.
  destruct (obj_get props "context") as [| | | | | |iprops] eqn:Hinner; try discriminate.
  intros _. eexists. split; [reflexivity |].
  unfold context_user. simpl. rewrite obj_get_set. simpl. now rewrite obj_get_set.
Qed.

Lemma set_context_user_all (contexts : list value) :
  Forall (fun c => is_context c = true) contexts ->
  exists contexts', mapM set_context_user contexts = Ok contexts'
                    /\ length contexts' = length contexts
                    /\ Forall (fun c => context_user c = Ok (VString userName)) contexts'.
Proof.
  induction 1 as [| c contexts Hc _ (contexts' & Hmap & Hlen & Hall)].
  - exists []. repeat split. constructor.
  - destruct (set_context_user_ok c Hc) as (c' & Hset & Huser).
    exists (c' :: contexts'). simpl. rewrite Hset. simpl. rewrite Hmap. simpl.
    repeat split; [now rewrite Hlen | now constructor].
Qed.

Lemma add_token_user_ok (props : list (string * value)) (kubeToken : value)
    (contexts : list value) :
  truthy (obj_get props "users") = false \/ obj_get props "users" = VArray [] ->
  obj_get props "contexts" = VArray contexts ->
  Forall (fun c => is_context c = true) contexts ->
  exists props' contexts',
    add_token_user (VObject props) kubeToken = Ok (VObject props')
    /\ obj_get props' "contexts" = VArray contexts'
    /\ length contexts' = length contexts
    /\ Forall (fun c => context_user c = Ok (VString userName)) contexts'
    /\ obj_get props' "users" = VArray [identity kubeToken].
Proof.
  intros Husers Hcontexts Hall.
  destruct (set_context_user_all contexts Hall) as (contexts' & Hmap & Hlen & Huser).
  eexists _, contexts'. unfold add_token_user.
  assert (Hpush : (if negb (truthy (obj_get props "users")) then VArray []
                   else obj_get props "users") = VArray []).
  { destruct Husers as [-> | ->]; reflexivity. }
  rewrite Hpush. simpl.
  rewrite obj_get_set_ne by discriminate. rewrite Hcontexts. simpl.
  rewrite Hmap. simpl. split; [reflexivity |].
  rewrite obj_get_set. rewrite obj_get_set_ne by discriminate. rewrite obj_get_set.
  auto.
Qed.

Section KubeConfig.

Variable homedir_kube_config : string.
Variable yaml_load : string -> result value.
Variable yaml_dump : value -> string.
Variable file_of : string -> string.

(** C3: on a kubeconfig with N well-formed contexts and no user,
    [addTokenToKubeConfig] succeeds and writes the dump of a document that has
    N contexts, each with [context.user] set to the name of the injected
    user, and a single user, which carries the token.  (It holds for every
    N, so for every N >= 1.) *)
Theorem addTokenToKubeConfig_injects_user (kubeconfigPath : option string)
    (kubeToken : value) (w : World) (data : string) (props : list (string * value))
    (contexts : list value) :
  fs w !! file_of (kubeconfig_file homedir_kube_config kubeconfigPath) = Some data ->
  yaml_load data = Ok (VObject props) ->
  truthy (obj_get props "users") = false \/ obj_get props "users" = VArray [] ->
  obj_get props "contexts" = VArray contexts ->
  Forall (fun c => is_context c = true) contexts ->
  exists document contexts' user,
    addTokenToKubeConfig homedir_kube_config yaml_load yaml_dump file_of kubeconfigPath
      kubeToken w
    = (Ok "./kubeconfig-with-token.yml",
       with_fs w (<[file_of "./kubeconfig-with-token.yml" := yaml_dump document]> (fs w)),
       [])
    /\ get_prop document "contexts" = Ok (VArray contexts')
    /\ length contexts' = length contexts
    /\ Forall (fun c => context_user c = Ok (VString userName)) contexts'
    /\ get_prop document "users" = Ok (VArray [user])
    /\ get_prop user "name" = Ok (VString userName)
    /\ (auth ← get_prop user "user"; get_prop auth "token") = Ok kubeToken.
Proof.
  intros Hfile Hload Husers Hcontexts Hall.
  destruct (add_token_user_ok props kubeToken contexts Husers Hcontexts Hall)
    as (props' & contexts' & Hadd & Hc & Hlen & Huser & Hu).
  exists (VObject props'), contexts', (identity kubeToken).
  split_and!; simpl; try congruence; try assumption.
  unfold addTokenToKubeConfig, kubeconfig_file in *.
  unfold mbind, M_bind, get_world. rewrite Hfile.
  unfold lift. rewrite Hload, Hadd. reflexivity.
Qed.

(** C2, as amended: on a kubeconfig that has no [contexts] section (the key
    is absent, or its value is [null] or otherwise falsy), with users absent
    or a list, [addTokenToKubeConfig] throws the error about missing contexts
    and writes no file. *)
Theorem addTokenToKubeConfig_no_contexts (kubeconfigPath : option string)
    (kubeToken : value) (w : World) (data : string) (props : list (string * value)) :
  fs w !! file_of (kubeconfig_file homedir_kube_config kubeconfigPath) = Some data ->
  yaml_load data = Ok (VObject props) ->
  truthy (obj_get props "users") = false \/ (exists l, obj_get props "users" = VArray l) ->
  truthy (obj_get props "contexts") = false ->
  addTokenToKubeConfig homedir_kube_config yaml_load yaml_dump file_of kubeconfigPath
      kubeToken w
  = (Throw no_contexts, w, []).
Proof.
  intros Hfile Hload Husers Hcontexts.
  unfold addTokenToKubeConfig, kubeconfig_file in *.
  unfold mbind, M_bind, get_world. rewrite Hfile.
  unfold lift. rewrite Hload.
  assert (Hadd : add_token_user (VObject props) kubeToken = Throw no_contexts).
  { unfold add_token_user.
    assert (Hpush : exists l, (if negb (truthy (obj_get props "users")) then VArray []
                               else obj_get props "users") = VArray l).
    { destruct Husers as [-> | [l ->]]; simpl; eauto. }
    destruct Hpush as [l ->]. simpl.
    rewrite obj_get_set_ne by discriminate. now rewrite Hcontexts. }
  rewrite Hadd. reflexivity.
Qed.

End KubeConfig.

(** C2, as stated, fails: the document has zero contexts (an empty list),
    and the token is injected all the same: the call returns the path and the
    derived file is written. *)
Lemma addTokenToKubeConfig_empty_contexts_succeeds :
  get_prop empty_contexts "contexts" = Ok (VArray [])
  /\ add_token_user empty_contexts (VString "t0k3n")
     = Ok (VObject [("contexts", VArray []); ("users", VArray [identity (VString "t0k3n")])])
  /\ exists w,
       addTokenToKubeConfig "/root/.kube/config" load_examples dump_examples as_spelled
         (Some "./kubeconfig.yml") (VString "t0k3n") (disk yaml_empty)
       = (Ok "./kubeconfig-with-token.yml", w, [])
       /\ fs w !! "./kubeconfig-with-token.yml" = Some "contexts: 0".
Proof.
  split; [reflexivity |]. split; [reflexivity |].
  eexists. split; [reflexivity |]. reflexivity.
Qed.

Lemma addTokenToKubeConfig_no_contexts_witness :
  addTokenToKubeConfig "/root/.kube/config" load_examples dump_examples as_spelled
    (Some "./kubeconfig.yml") (VString "t0k3n") (disk yaml_clusters)
  = (Throw no_contexts, disk yaml_clusters, []).
Proof.
  apply (addTokenToKubeConfig_no_contexts "/root/.kube/config" load_examples dump_examples
           as_spelled (Some "./kubeconfig.yml") (VString "t0k3n") (disk yaml_clusters) yaml_clusters
           [("clusters", VArray []); ("users", VNull)]).
  - reflexivity.
  - reflexivity.
  - left. reflexivity.
  - reflexivity.
Defined.

Lemma addTokenToKubeConfig_injects_user_witness :
  exists document contexts' user,
    addTokenToKubeConfig "/root/.kube/config" load_examples dump_examples as_spelled
      (Some "./kubeconfig.yml") (VString "t0k3n") (disk yaml_two)
    = (Ok "./kubeconfig-with-token.yml",
       with_fs (disk yaml_two)
         (<["./kubeconfig-with-token.yml" := dump_examples document]> (fs (disk yaml_two))), [])
    /\ get_prop document "contexts" = Ok (VArray contexts')
    /\ length contexts' = 2
    /\ Forall (fun c => context_user c = Ok (VString userName)) contexts'
    /\ get_prop document "users" = Ok (VArray [user])
    /\ get_prop user "name" = Ok (VString userName)
    /\ (auth ← get_prop user "user"; get_prop auth "token") = Ok (VString "t0k3n").
Proof.
  apply (addTokenToKubeConfig_injects_user "/root/.kube/config" load_examples dump_examples
           as_spelled (Some "./kubeconfig.yml") (VString "t0k3n") (disk yaml_two) yaml_two
           [("contexts", VArray dev_prod)] dev_prod).
  - reflexivity.
  - reflexivity.
  - left. reflexivity.
  - reflexivity.
  - repeat constructor.
Defined.

(** ** Status reports *)

(** Runs the binds and the primitive effects of a computation. *)
Ltac step_M := unfold mbind, M_bind, lift, emit, modify, get_world.

Section Status.

Variable core_getInput : string -> string.
Variable deployment : value.
Variable context_repo : result (string * string).
Variable context_sha : string.
Variable GitHub_new : string -> result unit.
Variable createDeploymentStatus : value -> string -> string -> result unit.

Local Abbreviation report :=
  (status core_getInput deployment context_repo context_sha GitHub_new
     createDeploymentStatus).

(** A report returns, and leaves the files, the environment and the
    recorded failure as they were. *)
Lemma status_returns (state : string) (w : World) :
  exists out, report state w = (Ok tt, w, out).
Proof.
  unfold status, try_catch.
  destruct (String.eqb (core_getInput "token") EmptyString || negb (truthy deployment));
    [simpl; eauto |].
  step_M.
  destruct (GitHub_new _); [| simpl; eauto].
  destruct context_repo as [[owner repo] |]; [| simpl; eauto].
  destruct (get_prop deployment "id"); [| simpl; eauto].
  destruct (createDeploymentStatus _ _ _) as [[] |]; simpl; eauto.
Qed.

Lemma status_not_configured (state : string) (w : World) :
  core_getInput "token" = EmptyString \/ truthy deployment = false ->
  report state w = (Ok tt, w, [Debug "not setting deployment status"]).
Proof.
  intros Hoff. unfold status, try_catch.
  destruct Hoff as [-> | ->]; simpl; [reflexivity | now rewrite orb_true_r].
Qed.

Lemma status_client_failure (state : string) (w : World) (e : exn) :
  core_getInput "token" <> EmptyString -> truthy deployment = true ->
  GitHub_new (core_getInput "token") = Throw e ->
  report state w = (Ok tt, w, [Warning "Failed to set deployment status: " e]).
Proof.
  intros Htoken Hd Hnew. unfold status, try_catch.
  destruct (String.eqb_spec (core_getInput "token") EmptyString); [contradiction |].
  rewrite Hd. simpl. step_M. rewrite Hnew. reflexivity.
Qed.

Lemma status_request_failure (state : string) (w : World) (e : exn)
    (owner repo : string) (id : value) :
  core_getInput "token" <> EmptyString -> truthy deployment = true ->
  GitHub_new (core_getInput "token") = Ok tt ->
  context_repo = Ok (owner, repo) ->
  get_prop deployment "id" = Ok id ->
  let url := "https://github.com/" +:+ owner +:+ "/" +:+ repo +:+ "/commit/"
               +:+ context_sha +:+ "/checks" in
  createDeploymentStatus id state url = Throw e ->
  report state w
  = (Ok tt, w, [DeploymentStatus id state url;
                Warning "Failed to set deployment status: " e]).
Proof.
  intros Htoken Hd Hnew Hrepo Hid url Hpost. unfold status, try_catch.
  destruct (String.eqb_spec (core_getInput "token") EmptyString); [contradiction |].
  rewrite Hd. simpl. step_M.
  rewrite Hnew, Hrepo, Hid. fold url. rewrite Hpost. reflexivity.
Qed.

End Status.

Section Run.

Variable core_getInput : string -> string.
Variable deployment : value.
Variable JSON_parse : string -> option value.
Variable JSON_stringify : value -> string.
Variable Mustache_render : string -> value -> result string.
Variable base64_decode : string -> string.
Variable homedir_kube_config : string.
Variable yaml_load : string -> result value.
Variable yaml_dump : value -> string.
Variable exec_exec : value -> list value -> bool -> result unit.
Variable file_of : string -> string.

Local Abbreviation deployed :=
  (deploy core_getInput deployment JSON_parse JSON_stringify Mustache_render
     base64_decode homedir_kube_config yaml_load yaml_dump exec_exec file_of).

Local Abbreviation run_with context_repo context_sha GitHub_new createDeploymentStatus :=
  (run core_getInput deployment context_repo context_sha GitHub_new
     createDeploymentStatus JSON_parse JSON_stringify Mustache_render base64_decode
     homedir_kube_config yaml_load yaml_dump exec_exec file_of).

Lemma run_outcome (context_repo : result (string * string)) (context_sha : string)
    (GitHub_new : string -> result unit)
    (createDeploymentStatus : value -> string -> string -> result unit) (w : World) :
  exists out,
    run_with context_repo context_sha GitHub_new createDeploymentStatus w
    = (Ok tt, outcome (deployed w), out).
Proof.
  unfold run, try_catch. unfold mbind at 1. unfold M_bind at 1.
  destruct (status_returns core_getInput deployment context_repo context_sha GitHub_new
              createDeploymentStatus "pending" w) as [out0 ->].
  unfold mbind at 1. unfold M_bind at 1.
  destruct (deployed w) as [[[task | e] w1] out1]; simpl.
  - match goal with
    | |- context [status ?a ?b ?c ?d ?f ?g ?st w1] =>
        destruct (status_returns a b c d f g st w1) as [out2 ->]
    end.
    eauto.
  - step_M.
    match goal with
    | |- context [status ?a ?b ?c ?d ?f ?g ?st ?w2] =>
        destruct (status_returns a b c d f g st w2) as [out2 ->]
    end.
    eauto.
Qed.

(** C9: a status report never throws and leaves the state of the run as it
    was; without a token or without a deployment event it only prints a debug
    line; a failure of the client or of the request is printed as a warning
    and dropped; and what [run] returns and leaves behind (the failure it
    records included) is the same whatever the GitHub client does. *)
Theorem status_never_fails_the_run
    (context_repo : result (string * string)) (context_sha : string)
    (GitHub_new : string -> result unit)
    (createDeploymentStatus : value -> string -> string -> result unit) :
  let report :=
    status core_getInput deployment context_repo context_sha GitHub_new
      createDeploymentStatus in
  (forall state w, exists out, report state w = (Ok tt, w, out))
  /\ (forall state w,
        core_getInput "token" = EmptyString \/ truthy deployment = false ->
        report state w = (Ok tt, w, [Debug "not setting deployment status"]))
  /\ (forall state w e,
        core_getInput "token" <> EmptyString -> truthy deployment = true ->
        GitHub_new (core_getInput "token") = Throw e ->
        report state w = (Ok tt, w, [Warning "Failed to set deployment status: " e]))
  /\ (forall state w e owner repo id,
        core_getInput "token" <> EmptyString -> truthy deployment = true ->
        GitHub_new (core_getInput "token") = Ok tt ->
        context_repo = Ok (owner, repo) ->
        get_prop deployment "id" = Ok id ->
        let url := "https://github.com/" +:+ owner +:+ "/" +:+ repo +:+ "/commit/"
                     +:+ context_sha +:+ "/checks" in
        createDeploymentStatus id state url = Throw e ->
        report state w
        = (Ok tt, w, [DeploymentStatus id state url;
                      Warning "Failed to set deployment status: " e]))
  /\ (forall context_repo' context_sha' GitHub_new' createDeploymentStatus' w,
        let r := run_with context_repo context_sha GitHub_new createDeploymentStatus w in
        let r' := run_with context_repo' context_sha' GitHub_new' createDeploymentStatus' w in
        r.1.1 = Ok tt /\ r'.1.1 = Ok tt /\ r.1.2 = r'.1.2
        /\ failed r.1.2 = failed r'.1.2).
Proof.
  intros report. split_and!.
  - apply status_returns.
  - apply status_not_configured.
  - apply status_client_failure.
  - apply status_request_failure.
  - intros context_repo' context_sha' GitHub_new' createDeploymentStatus' w r r'.
    destruct (run_outcome context_repo context_sha GitHub_new createDeploymentStatus w)
      as [out Hr].
    destruct (run_outcome context_repo' context_sha' GitHub_new' createDeploymentStatus' w)
      as [out' Hr'].
    subst r r'. rewrite Hr, Hr'. simpl. auto.
Qed.

End Run.

Lemma status_never_fails_the_run_witness :
  status token_input event_7 (Ok ("o", "r")) "abc" failing_client failing_request
    "pending" blank
  = (Ok tt, blank, [Warning "Failed to set deployment status: " (Error "Bad credentials")]).
Proof.
  pose proof (status_never_fails_the_run token_input event_7 (fun _ => None)
                (fun _ => EmptyString) (fun content _ => Ok content) (fun s => s)
                "/root/.kube/config" (fun _ => Ok VNull) (fun _ => EmptyString)
                (fun _ _ _ => Ok tt) as_spelled (Ok ("o", "r")) "abc" failing_client
                failing_request) as (_ & _ & Hclient & _).
  apply Hclient; [discriminate | reflexivity | reflexivity].
Defined.

(** ** Rendering the value files *)

Section Render.

Variable JSON_stringify : value -> string.
Variable Mustache_render : string -> value -> result string.
Variable data : value.
Variable file_of : string -> string.

Local Abbreviation task_of files0 := (render_task Mustache_render file_of files0 data).
Local Abbreviation written := (write_rendered file_of).

Lemma renderFiles_eq (files : list value) (w : World) :
  renderFiles JSON_stringify Mustache_render file_of files data w
  = (Promise_all (task_of (fs w) <$> files),
     with_fs w (foldl written (fs w) (task_of (fs w) <$> files)),
     [Debug ("rendering value files [" +:+ to_str (VArray files) +:+ "] with: "
             +:+ JSON_stringify data)]).
Proof.
  unfold renderFiles, mbind, M_bind, emit, get_world, modify, lift. simpl.
  now destruct (Promise_all _).
Qed.

(** A task succeeds exactly on a path that is on disk with a content the
    renderer accepts. *)
Lemma render_task_ok (files0 : gmap string string) (file file' : value) (rendered : string) :
  task_of files0 file = Ok (file', rendered) <->
  exists path content,
    file = VString path /\ file' = file /\ files0 !! file_of path = Some content
    /\ Mustache_render content data = Ok rendered.
Proof.
  unfold render_task, readFile. split.
  - destruct file as [| | | | path | |]; simpl; try discriminate.
    destruct (files0 !! file_of path) as [content |] eqn:Hfile; simpl; [| discriminate].
    destruct (Mustache_render content data) eqn:Hr; simpl; [| discriminate].
    intros [= <- <-]. eauto 6.
  - intros (path & content & -> & -> & -> & Hr). simpl. now rewrite Hr.
Qed.

(** Writes that put on disk what is there already change nothing. *)
Lemma foldl_write_rendered_same (files0 : gmap string string)
    (tasks : list (result (value * string))) :
  (forall path rendered, Ok (VString path, rendered) ∈ tasks ->
     files0 !! file_of path = Some rendered) ->
  foldl written files0 tasks = files0.
Proof.
  induction tasks as [| t tasks IH]; intros Hsame; [reflexivity |]. simpl.
  assert (Ht : written files0 t = files0).
  { destruct t as [[[| | | | path | |] rendered] |]; simpl; try reflexivity.
    apply insert_id, Hsame. apply elem_of_cons. now left. }
  rewrite Ht. apply IH. intros path rendered Hin. apply Hsame, elem_of_cons. now right.
Qed.

(** Once [path] holds what its task renders, the later writes keep it. *)
Lemma foldl_write_rendered_keeps (files0 acc : gmap string string) (files : list value)
    (path : string) (file : value) (rendered : string) :
  task_of files0 (VString path) = Ok (file, rendered) ->
  acc !! file_of path = Some rendered ->
  foldl written acc (task_of files0 <$> files) !! file_of path = Some rendered.
Proof.
  intros Hpath. revert acc. induction files as [| f files IH]; intros acc Hacc; [exact Hacc |].
  simpl. apply IH.
  destruct (task_of files0 f) as [[f' r] |] eqn:Hf; [| exact Hacc].
  apply render_task_ok in Hf as (other & content & -> & -> & Hc & Hr). simpl.
  destruct (decide (file_of other = file_of path)) as [Heq | Hne].
  - unfold render_task, readFile in Hpath. rewrite <- Heq, Hc in Hpath. simpl in Hpath.
    rewrite Hr in Hpath. injection Hpath as _ <-. rewrite Heq. apply lookup_insert_eq.
  - now rewrite lookup_insert_ne.
Qed.

(** A path among the files whose task succeeds holds what the task renders. *)
Lemma foldl_write_rendered_written (files0 acc : gmap string string) (files : list value)
    (path : string) (file : value) (rendered : string) :
  VString path ∈ files ->
  task_of files0 (VString path) = Ok (file, rendered) ->
  foldl written acc (task_of files0 <$> files) !! file_of path = Some rendered.
Proof.
  intros Hin Hpath. revert acc.
  induction files as [| f files IH]; intros acc; [now apply elem_of_nil in Hin |].
  apply elem_of_cons in Hin as [<- | Hin]; simpl.
  - apply (foldl_write_rendered_keeps files0 _ files path file rendered Hpath).
    rewrite Hpath. apply render_task_ok in Hpath as (? & ? & [= <-] & -> & _).
    simpl. apply lookup_insert_eq.
  - now apply IH.
Qed.

(** A path whose task fails is not written. *)
Lemma foldl_write_rendered_failed (files0 acc : gmap string string) (files : list value)
    (path : string) (e : exn) :
  task_of files0 (VString path) = Throw e ->
  foldl written acc (task_of files0 <$> files) !! file_of path = acc !! file_of path.
Proof.
  intros Hpath. revert acc. induction files as [| f files IH]; intros acc; [reflexivity |].
  simpl. rewrite IH.
  destruct (task_of files0 f) as [[f' r] |] eqn:Hf; [| reflexivity].
  apply render_task_ok in Hf as (other & content & -> & -> & Hc & Hr). simpl.
  apply lookup_insert_ne. intros Heq.
  unfold render_task, readFile in Hpath. rewrite <- Heq, Hc in Hpath. simpl in Hpath.
  rewrite Hr in Hpath. discriminate.
Qed.

(** C8, as amended: when rendering leaves what each file was rendered to as
    it is (the first outputs hold nothing the renderer would expand again),
    rendering the files a second time with the same data leaves every file
    byte for byte as the first rendering left it. *)
Theorem renderFiles_again_is_identity (files : list value) (w : World) :
  (forall path content rendered,
     VString path ∈ files -> fs w !! file_of path = Some content ->
     Mustache_render content data = Ok rendered ->
     Mustache_render rendered data = Ok rendered) ->
  let once := (renderFiles JSON_stringify Mustache_render file_of files data w).1.2 in
  let twice := (renderFiles JSON_stringify Mustache_render file_of files data once).1.2 in
  twice = once.
Proof.
  intros Hfixed once twice. subst twice once. rewrite !renderFiles_eq. simpl.
  set (files1 := foldl written (fs w) (task_of (fs w) <$> files)).
  unfold with_fs. simpl. f_equal.
  apply foldl_write_rendered_same. intros path rendered Hin.
  apply list_elem_of_fmap in Hin as (file & Htask & Hfile). symmetry in Htask.
  apply render_task_ok in Htask as (path' & content1 & -> & [= <-] & Hc1 & Hr1).
  subst files1.
  destruct (task_of (fs w) (VString path)) as [[file0 rendered0] |] eqn:Hfirst.
  - rewrite (foldl_write_rendered_written _ _ _ _ _ _ Hfile Hfirst) in Hc1 |- *.
    injection Hc1 as ->.
    apply render_task_ok in Hfirst as (? & content0 & [= <-] & _ & Hc0 & Hr0).
    rewrite (Hfixed path content0 content1 Hfile Hc0 Hr0) in Hr1. congruence.
  - rewrite (foldl_write_rendered_failed _ _ _ _ _ Hfirst) in Hc1.
    unfold render_task, readFile in Hfirst. rewrite Hc1 in Hfirst. simpl in Hfirst.
    rewrite Hr1 in Hfirst. discriminate.
Qed.

End Render.

(** C8, as stated, fails: the secret is the text [x${{secrets}}] and the
    file is the template [${{secrets}}]; the first rendering writes
    [x${{secrets}}], and the second, with the same data, writes
    [xx${{secrets}}]. *)
Lemma renderFiles_again_changes_the_file :
  let once :=
    (renderFiles no_json Mustache.render as_spelled [VString "./values.yml"] secrets_view values_disk).1.2 in
  let twice :=
    (renderFiles no_json Mustache.render as_spelled [VString "./values.yml"] secrets_view once).1.2 in
  fs once !! "./values.yml" = Some "x${{secrets}}"
  /\ fs twice !! "./values.yml" = Some "xx${{secrets}}".
Proof. split; vm_compute; reflexivity. Qed.

Lemma renderFiles_again_is_identity_witness :
  let once :=
    (renderFiles no_json Mustache.render as_spelled [VString "./values.yml"] password_view
       password_disk).1.2 in
  (renderFiles no_json Mustache.render as_spelled [VString "./values.yml"] password_view once).1.2 = once.
Proof.
  apply (renderFiles_again_is_identity no_json Mustache.render password_view as_spelled
           [VString "./values.yml"] password_disk).
  intros path content rendered Hin%list_elem_of_singleton. injection Hin as ->.
  vm_compute. intros [= <-] [= <-]. reflexivity.
Defined.

Example renderFiles_password :
  fs (renderFiles no_json Mustache.render as_spelled [VString "./values.yml"] password_view
        password_disk).1.2 !! "./values.yml"
  = Some "password: s3cr3t".
Proof. vm_compute. reflexivity. Qed.

(** ** More on [getInput] *)

Section GetInputMore.

Variable core_getInput : string -> string.
Variable deployment : value.

Local Abbreviation input := (getInput core_getInput deployment).

Lemma length_0_empty (s : string) : (String.length s =? 0)%nat = String.eqb s EmptyString.
Proof. now destruct s. Qed.

(** What [getInput] checks last: the value resolved so far is returned when
    it is truthy or the input is not required. *)
Lemma getInput_required_check (name : string) (v : value) :
  input name required_input = Ok v -> truthy v = true.
Proof.
  unfold getInput, required_input.
  match goal with |- context [mbind _ ?r] => destruct r as [val | e] end; simpl;
    [| discriminate].
  destruct (truthy val) eqn:Hval; simpl; [| discriminate]. now intros [= <-].
Qed.

Lemma getInput_no_event (name : string) (options : option InputOptions) :
  truthy deployment = false ->
  input name options
  = if match options with Some o => required o | None => false end
       && String.eqb (core_input core_getInput name) EmptyString
    then Throw (Error ("Input required and not supplied: " +:+ name))
    else Ok (VString (core_input core_getInput name)).
Proof.
  intros Hd. unfold getInput, core_input. rewrite Hd. simpl.
  now rewrite negb_involutive.
Qed.

Lemma replace_first_dash (a b : string) :
  includes a "-" = false ->
  replace (a +:+ "-" +:+ b) "-" "_" = a +:+ "_" +:+ b
  /\ includes (a +:+ "-" +:+ b) "-" = true.
Proof.
  induction a as [| c a IH]; simpl; [auto |].
  destruct (Ascii.eqb c "-") eqn:Hc; [discriminate |]. intros Ha.
  destruct (IH Ha) as [-> ->]. auto.
Qed.

(** X1: A required input comes back truthy or not at all: [getInput] with
    [required] returns a truthy value or throws, and as soon as the value it
    resolved is falsy the error names the input. *)
Theorem getInput_required_is_truthy (name : string) :
  (forall v, input name required_input = Ok v -> truthy v = true)
  /\ (forall v, input name None = Ok v -> truthy v = false ->
        input name required_input
        = Throw (Error ("Input required and not supplied: " +:+ name)))
  /\ (forall e, input name None = Throw e -> input name required_input = Throw e).
Proof.
  split_and!.
  - apply getInput_required_check.
  - intros v. unfold getInput, required_input.
    match goal with |- context [mbind _ ?r] => destruct r as [val | e] end; simpl;
      [| discriminate].
    intros [= <-] ->. reflexivity.
  - intros e. unfold getInput, required_input.
    match goal with |- context [mbind _ ?r] => destruct r as [val | e'] end; simpl;
      [discriminate | auto].
Qed.

(** X2: Without a deployment event [getInput] is the workflow input: read under
    the name, or, when that is empty and the name has a dash, under the name
    with its first dash (and only that one) turned into an underscore; when
    it is required and empty both ways, the error names the input. *)
Theorem getInput_without_event (name : string) :
  truthy deployment = false ->
  input name None = Ok (VString (core_input core_getInput name))
  /\ (core_input core_getInput name <> EmptyString ->
      input name required_input = Ok (VString (core_input core_getInput name)))
  /\ (core_input core_getInput name = EmptyString ->
      input name required_input
      = Throw (Error ("Input required and not supplied: " +:+ name)))
  /\ (core_getInput name <> EmptyString ->
      core_input core_getInput name = core_getInput name)
  /\ (includes name "-" = false -> core_input core_getInput name = core_getInput name)
  /\ (forall a b, name = a +:+ "-" +:+ b -> includes a "-" = false ->
        core_getInput name = EmptyString ->
        core_input core_getInput name = core_getInput (a +:+ "_" +:+ b)).
Proof.
  intros Hd. split_and!.
  - now rewrite getInput_no_event.
  - intros Hne. rewrite getInput_no_event by exact Hd. simpl.
    now destruct (String.eqb_spec (core_input core_getInput name) EmptyString).
  - intros He. rewrite getInput_no_event by exact Hd. simpl. now rewrite He.
  - intros Hne. unfold core_input. rewrite length_0_empty.
    now destruct (String.eqb_spec (core_getInput name) EmptyString).
  - intros Hno. unfold core_input. rewrite Hno. now rewrite andb_false_r.
  - intros a b -> Ha He. unfold core_input. rewrite He.
    destruct (replace_first_dash a b Ha) as [-> ->]. reflexivity.
Qed.

(** X3: Falsy values of the event override nothing: when the event is a
    mapping whose payload is a mapping, the name is none a mapping inherits
    (no input of the action is) and neither holds a truthy value for it,
    [getInput] is the workflow input, as it is without an event. *)
Theorem getInput_falsy_event_values (name : string) (options : option InputOptions)
    (event fields : list (string * value)) :
  deployment = VObject event ->
  obj_get event "payload" = VObject fields ->
  name ∉ Object_prototype ->
  truthy (obj_get event name) = false -> truthy (obj_get fields name) = false ->
  input name options = getInput core_getInput VUndefined name options.
Proof.
  intros -> Hpayload _ Ht Hn. unfold getInput. simpl. rewrite Hpayload. simpl.
  now rewrite Ht, Hn.
Qed.

End GetInputMore.

Lemma getInput_required_is_truthy_witness :
  getInput (fun _ => EmptyString)
    (VObject [("release", VNumber 0); ("payload", VObject [])]) "release" required_input
  = Throw (Error "Input required and not supplied: release").
Proof.
  apply (proj1 (proj2 (getInput_required_is_truthy (fun _ => EmptyString)
                         (VObject [("release", VNumber 0); ("payload", VObject [])])
                         "release")) (VString EmptyString)); reflexivity.
Defined.

Lemma getInput_without_event_witness :
  getInput underscore_inputs VUndefined "chart-version" None = Ok (VString "1.2.3")
  /\ core_input underscore_inputs "a-b-c" = "first dash".
Proof.
  split.
  - now pose proof (getInput_without_event underscore_inputs VUndefined "chart-version"
                      eq_refl) as (Hinput & _).
  - pose proof (getInput_without_event underscore_inputs VUndefined "a-b-c" eq_refl)
      as (_ & _ & _ & _ & _ & Hdash).
    now apply (Hdash "a" "b-c").
Defined.

Lemma getInput_falsy_event_values_witness :
  getInput (fun _ => "canary")
    (VObject [("track", VString ""); ("payload", VObject [("track", VNull)])]) "track" None
  = getInput (fun _ => "canary") VUndefined "track" None.
Proof.
  apply (getInput_falsy_event_values (fun _ => "canary")
           (VObject [("track", VString ""); ("payload", VObject [("track", VNull)])])
           "track" None [("track", VString ""); ("payload", VObject [("track", VNull)])]
           [("track", VNull)]); try reflexivity.
  unfold Object_prototype. rewrite !elem_of_cons, elem_of_nil.
  intros H. repeat destruct H as [H | H]; solve [discriminate H | destruct H].
Defined.

(** ** More on the value files *)

Section ValueFilesMore.

Variable JSON_parse : string -> option value.

Lemma filter_truthy_Forall (l : list value) : Forall is_truthy (filter is_truthy l).
Proof. apply Forall_forall. intros f Hf. now apply list_elem_of_filter in Hf. Qed.

Lemma getValueFiles_truthy (files : value) : Forall is_truthy (getValueFiles JSON_parse files).
Proof.
  unfold getValueFiles.
  destruct (match files with VString s => _ | _ => files end);
    auto using filter_truthy_Forall.
Qed.

(** X4: A value that is not a list of files gives no file at all: a text that
    parses, but not as an array (a quoted name, an object, a number), and a
    value of the event that is neither a string nor an array, resolve to the
    empty list.  Whatever the input, the entries returned are truthy and
    resolving the returned list again returns it. *)
Theorem getValueFiles_not_a_list :
  (forall s v, JSON_parse s = Some v -> (forall l, v <> VArray l) ->
     getValueFiles JSON_parse (VString s) = [])
  /\ (forall files, (forall s, files <> VString s) -> (forall l, files <> VArray l) ->
        getValueFiles JSON_parse files = [])
  /\ (forall files, Forall is_truthy (getValueFiles JSON_parse files))
  /\ (forall files,
        getValueFiles JSON_parse (VArray (getValueFiles JSON_parse files))
        = getValueFiles JSON_parse files).
Proof.
  split_and!.
  - intros s v Hs Hv. unfold getValueFiles. rewrite Hs. simpl.
    destruct v; try reflexivity. now destruct (Hv elems).
  - intros files Hs Hl. unfold getValueFiles.
    destruct files; try reflexivity; [now destruct (Hs s) | now destruct (Hl elems)].
  - apply getValueFiles_truthy.
  - intros files. rewrite getValueFiles_array.
    apply filter_truthy_id, getValueFiles_truthy.
Qed.

End ValueFilesMore.

Lemma getValueFiles_not_a_list_witness :
  getValueFiles (fun _ => Some (VString "a.yml")) (VString (quoted "a.yml")) = [].
Proof.
  pose proof (getValueFiles_not_a_list (fun _ => Some (VString "a.yml"))) as (Htext & _).
  apply (Htext _ (VString "a.yml")); [reflexivity | discriminate].
Defined.

(** ** More on the commands *)

(** X5: The release the canary cleanup deletes is the release a deployment of the
    same application on the [canary] track installs: [deleteCmd] on
    [`${appName}-canary`] is [deleteCmd] on the release name of that track, and
    the release is the last token of the command for both variants of helm. *)
Theorem deleteCmd_canary_release (helm namespace appName : value) :
  deleteCmd helm namespace (VString (to_str appName +:+ "-canary"))
  = deleteCmd helm namespace (releaseName appName (VString "canary"))
  /\ (forall release,
        last (deleteCmd helm namespace release) = Some release
        /\ head (deleteCmd helm namespace release) = Some (VString "delete")
        /\ (namespace ∈ deleteCmd helm namespace release ->
            strict_eq_string helm "helm3" = true \/ namespace = release
            \/ namespace = VString "delete" \/ namespace = VString "--purge")).
Proof.
  split.
  - unfold releaseName. simpl. reflexivity.
  - intros release. unfold deleteCmd.
    destruct (strict_eq_string helm "helm3"); split_and!; try reflexivity; auto.
    intros Hin. repeat (apply elem_of_cons in Hin as [Hin | Hin]); auto.
    now apply elem_of_nil in Hin.
Qed.

Lemma flag_if_has_prefix (x : value) (flag : string) :
  Forall (has_prefix flag) (flag_if x flag).
Proof.
  unfold flag_if. destruct (truthy x); repeat constructor. now exists (to_str x).
Qed.

(** X6: The value files keep their order in the command and the rendered
    [./values.yml] comes after all of them: the command is some tokens, one
    [--values=] flag per resolved file in order, [--values=./values.yml], and
    then tokens none of which is a [--values=] flag. *)
Theorem upgradeArgs_values_order (p : Params) :
  exists before after,
    upgradeArgs p
    = before ++ ((fun f => VString ("--values=" +:+ to_str f)) <$> valueFiles p)
        ++ [VString "--values=./values.yml"] ++ after
    /\ Forall (fun v => ~ has_prefix "--values=" v) after
    /\ 7 <= length before.
Proof.
  unfold upgradeArgs.
  exists ([ VString "upgrade"; release p; chart p; VString "--install"; VString "--wait";
            VString "--atomic"; VString ("--namespace=" +:+ to_str (namespace p)) ]
          ++ (if negb (String.eqb (dryRun p) EmptyString) then [VString "--dry-run"] else [])
          ++ flag_if (appName p) "--set=app.name="
          ++ flag_if (version p) "--set=app.version="
          ++ flag_if (chartVersion p) "--version="
          ++ flag_if (timeout p) "--timeout="),
         ((if strict_eq_string (track p) "canary"
           then [VString "--set=service.enabled=false"; VString "--set=ingress.enabled=false"]
           else [])
          ++ flag_if (kubeContext p) "--kube-context="
          ++ (if strict_eq_string (helm p) "helm3"
              then flag_if (kubeToken p) "--kube-token=" else [])).
  split; [rewrite <- !app_assoc; reflexivity |]. split.
  - repeat apply Forall_app_2.
    + destruct (strict_eq_string (track p) "canary"); repeat constructor;
        intros [rest Hrest]; discriminate Hrest.
    + eapply Forall_impl; [apply flag_if_has_prefix |].
      intros v [rest ->] [rest' Hrest]. discriminate Hrest.
    + destruct (strict_eq_string (helm p) "helm3"); [| constructor].
      eapply Forall_impl; [apply flag_if_has_prefix |].
      intros v [rest ->] [rest' Hrest]. discriminate Hrest.
  - rewrite length_app. simpl. lia.
Qed.

(** X7: The token never reaches the command line of helm 2: unless helm is
    [helm3], a [--kube-token=] token of the command can only be the release
    name or the chart given as such; with [helm3] and a token, the flag is the
    last token of the command. *)
Theorem upgradeArgs_kube_token (p : Params) :
  (strict_eq_string (helm p) "helm3" = false ->
   forall v, has_prefix "--kube-token=" v -> v ∈ upgradeArgs p ->
     release p = v \/ chart p = v)
  /\ (strict_eq_string (helm p) "helm3" = true -> truthy (kubeToken p) = true ->
      last (upgradeArgs p) = Some (VString ("--kube-token=" +:+ to_str (kubeToken p)))).
Proof.
  split.
  - intros Hhelm v [rest ->] Hin. unfold upgradeArgs in Hin. rewrite Hhelm in Hin.
    repeat (apply elem_of_app in Hin as [Hin | Hin]).
    + repeat (apply elem_of_cons in Hin as [Hin | Hin]); auto; try discriminate Hin.
      now apply elem_of_nil in Hin.
    + destruct (negb _); [| now apply elem_of_nil in Hin].
      apply list_elem_of_singleton in Hin. discriminate Hin.
    + apply flag_if_prefix in Hin as [? Hin]. discriminate Hin.
    + apply flag_if_prefix in Hin as [? Hin]. discriminate Hin.
    + apply flag_if_prefix in Hin as [? Hin]. discriminate Hin.
    + apply flag_if_prefix in Hin as [? Hin]. discriminate Hin.
    + apply list_elem_of_fmap in Hin as (? & Hin & _). discriminate Hin.
    + apply list_elem_of_singleton in Hin. discriminate Hin.
    + destruct (strict_eq_string (track p) "canary");
        repeat (apply elem_of_cons in Hin as [Hin | Hin]); try discriminate Hin;
        now apply elem_of_nil in Hin.
    + apply flag_if_prefix in Hin as [? Hin]. discriminate Hin.
    + now apply elem_of_nil in Hin.
  - intros Hhelm Htoken. unfold upgradeArgs. rewrite Hhelm.
    unfold flag_if at 6. rewrite Htoken. rewrite !app_assoc. apply last_snoc.
Qed.

Lemma upgradeArgs_kube_token_witness :
  last (upgradeArgs helm3_request) = Some (VString "--kube-token=t0k3n").
Proof.
  apply (proj2 (upgradeArgs_kube_token helm3_request)); reflexivity.
Defined.

(** ** The resolved request *)

Section ResolveMore.

Variable core_getInput : string -> string.
Variable deployment : value.
Variable JSON_parse : string -> option value.
Variable JSON_stringify : value -> string.

Local Abbreviation resolved := (resolve core_getInput deployment JSON_parse JSON_stringify).
Local Abbreviation input := (getInput core_getInput deployment).

(** Takes the next [getInput] of [resolve] in [H]: it returned, or [H] is
    absurd. *)
Ltac next_input H :=
  match type of H with
  | context [mbind _ (getInput ?a ?b ?n ?o)] =>
      let v := fresh "v" in
      let Hv := fresh "Hv" in
      destruct (getInput a b n o) as [v | ?] eqn:Hv;
      [ change (mbind ?f (Ok v)) with (f v) in H; cbv beta in H | discriminate H ]
  end.

Lemma or_default_truthy (x : value) (s : string) :
  s <> EmptyString -> truthy (or_default x s) = true.
Proof.
  intros Hs. unfold or_default. destruct (truthy x) eqn:Hx; [exact Hx |]. simpl.
  now destruct (String.eqb_spec s EmptyString).
Qed.

Lemma releaseName_truthy (name track : value) :
  truthy name = true -> truthy (releaseName name track) = true.
Proof.
  intros Hname. unfold releaseName.
  destruct (negb (strict_eq_string track "stable")); [| exact Hname].
  simpl. now destruct (to_str name).
Qed.

Lemma chartName_truthy (name : value) :
  truthy name = true -> truthy (chartName name) = true.
Proof. intros Hname. unfold chartName. now destruct (strict_eq_string name "app"). Qed.

(** X8: A request that resolves is complete: the application name, the
    namespace, the chart, the release name, the track and the helm variant
    are all truthy, the release name is the one [releaseName] derives from the
    application name and the track (the application name itself on the
    [stable] track), and every value file is truthy. *)
Theorem resolve_request_is_complete (p : Params) :
  resolved = Ok p ->
  truthy (appName p) = true /\ truthy (namespace p) = true /\ truthy (chart p) = true
  /\ truthy (release p) = true /\ truthy (track p) = true /\ truthy (helm p) = true
  /\ release p = releaseName (appName p) (track p)
  /\ (track p = VString "stable" -> release p = appName p)
  /\ Forall is_truthy (valueFiles p).
Proof.
  intros H. unfold resolve in H. do 18 next_input H. injection H as <-. simpl.
  apply getInput_required_check in Hv0, Hv1, Hv2.
  split_and!.
  - exact Hv0.
  - exact Hv1.
  - apply chartName_truthy, Hv2.
  - apply releaseName_truthy, Hv0.
  - apply or_default_truthy. discriminate.
  - apply or_default_truthy. discriminate.
  - reflexivity.
  - intros ->. reflexivity.
  - apply getValueFiles_truthy.
Qed.

Lemma core_input_plain (name : string) :
  includes name "-" = false -> core_input core_getInput name = core_getInput name.
Proof. intros Hno. unfold core_input. rewrite Hno. now rewrite andb_false_r. Qed.

(** X9: Without a deployment event, the request resolves exactly when the
    inputs [release], [namespace] and [chart] are set, and otherwise the error
    names the first of the three that is missing, in that order; when it
    resolves, the application name, the namespace and the chart are those
    inputs (the chart through [chartName]) and the track is the input [track]
    or [stable]. *)
Theorem resolve_missing_input :
  truthy deployment = false ->
  (core_getInput "release" = EmptyString ->
   resolved = Throw (Error "Input required and not supplied: release"))
  /\ (core_getInput "release" <> EmptyString -> core_getInput "namespace" = EmptyString ->
      resolved = Throw (Error "Input required and not supplied: namespace"))
  /\ (core_getInput "release" <> EmptyString -> core_getInput "namespace" <> EmptyString ->
      core_getInput "chart" = EmptyString ->
      resolved = Throw (Error "Input required and not supplied: chart"))
  /\ (core_getInput "release" <> EmptyString -> core_getInput "namespace" <> EmptyString ->
      core_getInput "chart" <> EmptyString ->
      exists p, resolved = Ok p
        /\ appName p = VString (core_getInput "release")
        /\ namespace p = VString (core_getInput "namespace")
        /\ chart p = chartName (VString (core_getInput "chart"))
        /\ track p = VString (if String.eqb (core_getInput "track") EmptyString
                              then "stable" else core_getInput "track")).
Proof.
  intros Hd. unfold resolve. rewrite !getInput_no_event by exact Hd.
  rewrite !(core_input_plain "track"), !(core_input_plain "release"),
    !(core_input_plain "namespace"), !(core_input_plain "chart") by reflexivity.
  cbn [required andb].
  split_and!.
  - intros ->. reflexivity.
  - intros Hr ->. destruct (String.eqb_spec (core_getInput "release") EmptyString);
      [contradiction | reflexivity].
  - intros Hr Hn ->.
    destruct (String.eqb_spec (core_getInput "release") EmptyString); [contradiction |].
    destruct (String.eqb_spec (core_getInput "namespace") EmptyString); [contradiction |].
    reflexivity.
  - intros Hr Hn Hc.
    destruct (String.eqb_spec (core_getInput "release") EmptyString); [contradiction |].
    destruct (String.eqb_spec (core_getInput "namespace") EmptyString); [contradiction |].
    destruct (String.eqb_spec (core_getInput "chart") EmptyString); [contradiction |].
    eexists. split; [reflexivity |]. cbn [appName namespace chart track].
    split_and!; try reflexivity.
    unfold or_default. simpl.
    now destruct (String.eqb (core_getInput "track") EmptyString).
Qed.

End ResolveMore.

Lemma resolve_request_is_complete_witness :
  truthy (release canary_request) = true
  /\ release canary_request = releaseName (appName canary_request) (track canary_request).
Proof.
  pose proof (resolve_request_is_complete canary_inputs VUndefined (fun _ => None)
                (fun _ => EmptyString) canary_request eq_refl)
    as (_ & _ & _ & Hrelease & _ & _ & Hname & _).
  now split.
Defined.

Lemma resolve_missing_input_witness :
  resolve (fun name => if String.eqb name "release" then "api" else EmptyString)
    VUndefined (fun _ => None) (fun _ => EmptyString)
  = Throw (Error "Input required and not supplied: namespace").
Proof.
  pose proof (resolve_missing_input
                (fun name => if String.eqb name "release" then "api" else EmptyString)
                VUndefined (fun _ => None) (fun _ => EmptyString) eq_refl)
    as (_ & Hnamespace & _).
  apply Hnamespace; [discriminate | reflexivity].
Defined.

(** ** More on the kubeconfig with a token *)

Lemma set_context_user_same (context : value) :
  is_context context = true ->
  exists context', set_context_user context = Ok context'
                   /\ same_but_user context context'.
Proof.
  destruct context as [| | | | | |props]; try discriminate. simpl.
  unfold set_context_user. simpl.
  destruct (obj_get props "context") as [| | | | | |iprops] eqn:Hinner; try discriminate.
  intros _. eexists. split; [reflexivity |]. split.
  - intros name Hname. simpl. now rewrite obj_get_set_ne by congruence.
  - intros name Hname. simpl. rewrite obj_get_set, Hinner. simpl.
    now rewrite obj_get_set_ne by congruence.
Qed.

Lemma set_context_user_all_same (contexts : list value) :
  Forall (fun c => is_context c = true) contexts ->
  exists contexts', mapM set_context_user contexts = Ok contexts'
                    /\ Forall2 same_but_user contexts contexts'.
Proof.
  induction 1 as [| c contexts Hc _ (contexts' & Hmap & Hall)].
  - exists []. split; [reflexivity | constructor].
  - destruct (set_context_user_same c Hc) as (c' & Hset & Hsame).
    exists (c' :: contexts'). simpl. rewrite Hset. simpl. rewrite Hmap. simpl.
    split; [reflexivity | now constructor].
Qed.

(** On a tree: the users are the former ones and the new one, the contexts
    differ in [context.user] at most and the other sections are as they
    were. *)
Lemma add_token_user_rest (props : list (string * value)) (kubeToken : value)
    (users contexts : list value) :
  obj_get props "users" = VArray users ->
  obj_get props "contexts" = VArray contexts ->
  Forall (fun c => is_context c = true) contexts ->
  exists props' contexts',
    add_token_user (VObject props) kubeToken = Ok (VObject props')
    /\ obj_get props' "users" = VArray (users ++ [identity kubeToken])
    /\ obj_get props' "contexts" = VArray contexts'
    /\ Forall2 same_but_user contexts contexts'
    /\ (forall name, name <> "users" -> name <> "contexts" ->
          obj_get props' name = obj_get props name).
Proof.
  intros Husers Hcontexts Hall.
  destruct (set_context_user_all_same contexts Hall) as (contexts' & Hmap & Hsame).
  eexists _, contexts'. unfold add_token_user. rewrite Husers. simpl.
  rewrite obj_get_set_ne by discriminate. rewrite Hcontexts. simpl.
  rewrite Hmap. simpl. split; [reflexivity |].
  rewrite obj_get_set. rewrite obj_get_set_ne by discriminate. rewrite obj_get_set.
  split_and!; try reflexivity; [exact Hsame |].
  intros name Hu Hc. now rewrite !obj_get_set_ne by congruence.
Qed.

(** *** The program in place and the program on a tree *)

(** Induction on a node, through its elements and properties. *)
Lemma node_ind' (P : node -> Prop) :
  P NUndefined -> P NNull -> (forall b, P (NBool b)) -> (forall n, P (NNumber n)) ->
  (forall s, P (NString s)) ->
  (forall r elems, Forall P elems -> P (NArray r elems)) ->
  (forall r props, Forall (fun kv => P kv.2) props -> P (NObject r props)) ->
  forall n, P n.
Proof.
  intros Hu Hn Hb Hz Hs Ha Ho. fix IH 1.
  intros [| | b | z | s | r elems | r props];
    [exact Hu | exact Hn | apply Hb | apply Hz | apply Hs | |].
  - apply Ha. induction elems as [| x elems IHl]; constructor; [apply IH | exact IHl].
  - apply Ho. induction props as [| [k v] props IHl]; constructor; [apply IH | exact IHl].
Qed.

Local Abbreviation trees props := (prod_map id tree_of <$> props).
Local Abbreviation refs_of props := (props ≫= fun kv : string * node => refs kv.2).

(** Reading and writing a property commute with forgetting the identities. *)
Lemma tree_nobj_get (props : list (string * node)) (name : string) :
  tree_of (nobj_get props name) = obj_get (trees props) name.
Proof.
  induction props as [| [k v] props IH]; [reflexivity |]. simpl.
  now destruct (String.eqb k name).
Qed.

Lemma tree_nobj_set (props : list (string * node)) (name : string) (x : node) :
  trees (nobj_set props name x) = obj_set (trees props) name (tree_of x).
Proof.
  induction props as [| [k v] props IH]; [reflexivity |]. simpl.
  destruct (String.eqb k name); simpl; [reflexivity | f_equal; exact IH].
Qed.

Lemma tree_index_get (l : list node) (i : nat) (name : string) :
  index_get (tree_of <$> l) i name = tree_of <$> index_get l i name.
Proof.
  revert i. induction l as [| x l IH]; intros i; [reflexivity |]. simpl.
  destruct (String.eqb (pretty i) name); [reflexivity | apply IH].
Qed.

Lemma tree_node_prop (n : node) (name : string) :
  tree_result (node_prop n name) = get_prop (tree_of n) name.
Proof.
  destruct n as [| | b | z | s | r elems | r props]; simpl; try reflexivity.
  - destruct (String.eqb name "length"); simpl; [reflexivity |].
    now destruct (index_get _ 0 name).
  - rewrite length_fmap. destruct (String.eqb name "length"); simpl; [reflexivity |].
    rewrite tree_index_get. now destruct (index_get elems 0 name).
  - now rewrite tree_nobj_get.
Qed.

Lemma nobj_get_set (props : list (string * node)) (name : string) (x : node) :
  nobj_get (nobj_set props name x) name = x.
Proof.
  induction props as [| [k v] props IH]; simpl.
  - now rewrite String.eqb_refl.
  - destruct (String.eqb k name) eqn:Hk; simpl; now rewrite Hk.
Qed.

Lemma nobj_get_set_ne (props : list (string * node)) (name other : string) (x : node) :
  other <> name -> nobj_get (nobj_set props name x) other = nobj_get props other.
Proof.
  intros Hne. induction props as [| [k v] props IH]; simpl.
  - now destruct (String.eqb_spec name other); [congruence |].
  - destruct (String.eqb_spec k name) as [-> | Hk]; simpl.
    + now destruct (String.eqb_spec name other); [congruence |].
    + destruct (String.eqb k other); [reflexivity | exact IH].
Qed.

Lemma obj_set_set (props : list (string * value)) (name : string) (x y : value) :
  obj_set (obj_set props name x) name y = obj_set props name y.
Proof.
  induction props as [| [k v] props IH]; simpl.
  - now rewrite String.eqb_refl.
  - destruct (String.eqb k name) eqn:Hk; simpl; rewrite Hk; [reflexivity | now rewrite IH].
Qed.

Lemma obj_set_same (props : list (string * value)) (name : string) :
  obj_get props name <> VUndefined -> obj_set props name (obj_get props name) = props.
Proof.
  induction props as [| [k v] props IH]; simpl; [congruence |].
  destruct (String.eqb_spec k name) as [-> | Hk]; [reflexivity |].
  intros H. now rewrite IH.
Qed.

(** A change to an object that [n] does not hold leaves [n] as it is. *)
Lemma update_absent (r : nat) (f : node -> node) (n : node) :
  r ∉ refs n -> update r f n = n.
Proof.
  induction n as [| | b | z | s | r' elems IH | r' props IH] using node_ind';
    try reflexivity; cbn [update refs]; intros Hout;
    apply not_elem_of_cons in Hout as [Hne Hout];
    (destruct (Nat.eqb_spec r' r) as [-> | _]; [congruence |]); f_equal.
  - induction IH as [| x elems Hx _ IHl]; [reflexivity |].
    rewrite bind_cons in Hout. apply not_elem_of_app in Hout as [Hx' Hout].
    rewrite fmap_cons. now rewrite Hx, IHl.
  - induction IH as [| [k v] props Hx _ IHl]; [reflexivity |].
    rewrite bind_cons in Hout. apply not_elem_of_app in Hout as [Hx' Hout].
    rewrite fmap_cons. unfold prod_map at 1. simpl in *. now rewrite Hx, IHl.
Qed.

Lemma update_props_absent (r : nat) (f : node -> node) (props : list (string * node)) :
  r ∉ refs_of props -> prod_map id (update r f) <$> props = props.
Proof.
  induction props as [| [k v] props IH]; [reflexivity |]. rewrite bind_cons, fmap_cons.
  intros [Hv Hrest]%not_elem_of_app. unfold prod_map at 1. simpl.
  now rewrite update_absent, IH.
Qed.

Lemma update_elems_absent (r : nat) (f : node -> node) (elems : list node) :
  r ∉ elems ≫= refs -> update r f <$> elems = elems.
Proof.
  induction elems as [| x elems IH]; [reflexivity |]. rewrite bind_cons, fmap_cons.
  intros [Hv Hrest]%not_elem_of_app. now rewrite update_absent, IH.
Qed.

(** A change that brings no object brings none to the document. *)
Lemma refs_update_sub (r : nat) (f : node -> node) (n : node) :
  (forall m, refs (f m) ⊆+ refs m) -> refs (update r f n) ⊆+ refs n.
Proof.
  intros Hf.
  induction n as [| | b | z | s | r' elems IH | r' props IH] using node_ind';
    try reflexivity; cbn [update].
  - destruct (r' =? r)%nat; [apply (Hf (NArray r' elems)) |]. cbn [refs].
    apply submseteq_skip.
    induction IH as [| x elems Hx _ IHl]; [reflexivity |].
    rewrite fmap_cons, !bind_cons. now apply submseteq_app.
  - destruct (r' =? r)%nat; [apply (Hf (NObject r' props)) |]. cbn [refs].
    apply submseteq_skip.
    induction IH as [| [k v] props Hx _ IHl]; [reflexivity |].
    rewrite fmap_cons, !bind_cons. now apply submseteq_app.
Qed.

(** The identities of a mapping are those under a name and the others. *)
Lemma refs_props_key (props : list (string * node)) (name : string) :
  exists others,
    refs_of props ≡ₚ refs (nobj_get props name) ++ others
    /\ forall x, refs_of (nobj_set props name x) ≡ₚ refs x ++ others.
Proof.
  induction props as [| [k v] props (others & Hget & Hset)].
  - exists []. split; [reflexivity |]. intros x. cbn [nobj_set]. rewrite bind_cons.
    reflexivity.
  - cbn [nobj_get nobj_set]. destruct (String.eqb k name).
    + exists (refs_of props). split; [now rewrite bind_cons |].
      intros x. now rewrite bind_cons.
    + exists (refs v ++ others). split.
      * rewrite bind_cons, Hget. cbn [snd].
        now rewrite !app_assoc, (Permutation_app_comm (refs v)).
      * intros x. rewrite bind_cons, Hset. cbn [snd].
        now rewrite !app_assoc, (Permutation_app_comm (refs v)).
Qed.

Lemma refs_bound (props : list (string * node)) (name : string) (r : nat) :
  r ∈ refs (nobj_get props name) -> r ∈ refs_of props.
Proof.
  destruct (refs_props_key props name) as (others & -> & _). intros H.
  apply elem_of_app. now left.
Qed.

(** In a mapping no object of which is shared, a change to an object held
    under [name] changes the property [name] and no other. *)
Lemma update_props_at (props : list (string * node)) (name : string) (r : nat)
    (f : node -> node) :
  r ∈ refs (nobj_get props name) -> NoDup (refs_of props) ->
  prod_map id (update r f) <$> props
  = nobj_set props name (update r f (nobj_get props name)).
Proof.
  induction props as [| [k v] props IH]; [now intros ?%elem_of_nil |].
  cbn [nobj_get nobj_set]. rewrite bind_cons, fmap_cons. cbn [snd].
  intros Hin [Hv [Hdisj Hrest]]%NoDup_app. unfold prod_map at 1. simpl.
  destruct (String.eqb k name).
  - f_equal. apply update_props_absent. intros Hr. now apply (Hdisj r).
  - rewrite IH by assumption. f_equal. f_equal. apply update_absent.
    intros Hr. apply (Hdisj r Hr). now apply (refs_bound props name).
Qed.

Lemma update_elems_at (done rest : list node) (x : node) (r : nat) (f : node -> node) :
  r ∈ refs x -> NoDup ((done ++ x :: rest) ≫= refs) ->
  update r f <$> (done ++ x :: rest) = done ++ update r f x :: rest.
Proof.
  intros Hin Hnd. rewrite bind_app, bind_cons in Hnd.
  apply NoDup_app in Hnd as (_ & Hdone & [_ [Hrest _]]%NoDup_app).
  rewrite fmap_app, fmap_cons. f_equal; [| f_equal].
  - apply update_elems_absent. intros Hr. apply (Hdone r Hr).
    apply elem_of_app. now left.
  - apply update_elems_absent. intros Hr. now apply (Hrest r).
Qed.

(** No index is spelled [context]: an array or a string has no such
    property. *)
Lemma pretty_N_go_ne_c (x : N) (s s' : string) :
  s <> String "c" s' -> pretty_N_go x s <> String "c" s'.
Proof.
  revert s. induction (N.lt_wf_0 x) as [x _ IH]; intros s Hs.
  assert (x = 0 \/ 0 < x)%N as [-> | Hx] by lia.
  - now rewrite pretty_N_go_0.
  - rewrite pretty_N_go_step by exact Hx. apply IH.
    + now apply N.div_lt.
    + unfold pretty_N_char. now repeat case_match.
Qed.

Lemma pretty_nat_ne_context (i : nat) : pretty i <> "context".
Proof.
  unfold pretty, pretty_nat, pretty, pretty_N. case_decide; [discriminate |].
  now apply pretty_N_go_ne_c.
Qed.

Lemma index_get_context {A : Type} (l : list A) (i : nat) : index_get l i "context" = None.
Proof.
  revert i. induction l as [| x l IH]; intros i; [reflexivity |]. cbn [index_get].
  destruct (String.eqb_spec (pretty i) "context") as [H | _]; [| apply IH].
  now apply pretty_nat_ne_context in H.
Qed.

Lemma node_prop_context_object (context : node) (r : nat) (iprops : list (string * node)) :
  node_prop context "context" = Ok (NObject r iprops) ->
  exists r' props, context = NObject r' props /\ nobj_get props "context" = NObject r iprops.
Proof.
  destruct context as [| | b | z | s | r' elems | r' props]; simpl; try discriminate.
  - now destruct (index_get _ 0 "context").
  - now rewrite index_get_context.
  - intros [= H]. eauto.
Qed.

Lemma submseteq_NoDup' {A : Type} (l k : list A) : l ⊆+ k -> NoDup k -> NoDup l.
Proof.
  intros (k' & ->)%submseteq_Permutation. now intros [? _]%NoDup_app.
Qed.

Lemma NoDup_refs_bound (props : list (string * node)) (name : string) :
  NoDup (refs_of props) -> NoDup (refs (nobj_get props name)).
Proof.
  destruct (refs_props_key props name) as (others & -> & _). now intros [? _]%NoDup_app.
Qed.

Lemma update_here (r : nat) (f : node -> node) (props : list (string * node)) :
  update r f (NObject r props) = f (NObject r props).
Proof. cbn [update]. now rewrite Nat.eqb_refl. Qed.

Lemma update_array_here (r : nat) (f : node -> node) (elems : list node) :
  update r f (NArray r elems) = f (NArray r elems).
Proof. cbn [update]. now rewrite Nat.eqb_refl. Qed.

Lemma update_object (r r' : nat) (props : list (string * node)) (name : string)
    (f : node -> node) :
  NoDup (refs (NObject r' props)) -> r ∈ refs (nobj_get props name) ->
  update r f (NObject r' props)
  = NObject r' (nobj_set props name (update r f (nobj_get props name))).
Proof.
  cbn [refs]. intros [Hr' Hnd]%NoDup_cons Hin. cbn [update].
  destruct (Nat.eqb_spec r' r) as [-> | _].
  - destruct Hr'. now apply (refs_bound props name).
  - now rewrite (update_props_at props name).
Qed.

Lemma update_array (r r' : nat) (done rest : list node) (x : node) (f : node -> node) :
  NoDup (refs (NArray r' (done ++ x :: rest))) -> r ∈ refs x ->
  update r f (NArray r' (done ++ x :: rest)) = NArray r' (done ++ update r f x :: rest).
Proof.
  cbn [refs]. intros [Hr' Hnd]%NoDup_cons Hin. cbn [update].
  destruct (Nat.eqb_spec r' r) as [-> | _].
  - destruct Hr'. rewrite bind_app, bind_cons. apply elem_of_app. right.
    apply elem_of_app. now left.
  - now rewrite update_elems_at.
Qed.

Lemma NoDup_refs_elem (done rest : list node) (x : node) (r : nat) :
  NoDup (refs (NArray r (done ++ x :: rest))) -> NoDup (refs x).
Proof.
  cbn [refs]. intros [_ Hnd]%NoDup_cons. rewrite bind_app, bind_cons in Hnd.
  now apply NoDup_app in Hnd as (_ & _ & [? _]%NoDup_app).
Qed.

Lemma refs_assign_sub (name : string) (s : string) (m : node) :
  refs (assign name (NString s) m) ⊆+ refs m.
Proof.
  destruct m as [| | b | z | s' | r elems | r props]; try reflexivity. cbn [assign refs].
  apply submseteq_skip.
  destruct (refs_props_key props name) as (others & -> & ->).
  now apply submseteq_inserts_l.
Qed.

(** One turn of the loop, on the tree of the entry. *)
Lemma set_context_user_tree (context : node) :
  match node_prop context "context" with
  | Throw e => set_context_user (tree_of context) = Throw e
  | Ok NUndefined | Ok NNull => set_context_user (tree_of context) = Throw TypeError
  | Ok (NObject ri iprops) =>
      exists r props,
        context = NObject r props
        /\ nobj_get props "context" = NObject ri iprops
        /\ set_context_user (tree_of context)
           = Ok (tree_of (NObject r (nobj_set props "context"
                                       (NObject ri (nobj_set iprops "user"
                                                      (NString userName))))))
  | Ok _ => set_context_user (tree_of context) = Ok (tree_of context)
  end.
Proof.
  unfold set_context_user. rewrite <- tree_node_prop.
  destruct (node_prop context "context") as [inner | e] eqn:Hinner;
    cbn [tree_result mbind result_bind]; [| reflexivity].
  destruct inner as [| | b | z | s | ri elems | ri iprops]; cbn [tree_of];
    try reflexivity; try (now destruct (tree_of context)).
  destruct (node_prop_context_object context ri iprops Hinner) as (r & props & -> & Hget).
  exists r, props. split_and!; [reflexivity | exact Hget |].
  cbn [tree_of]. rewrite tree_nobj_set. cbn [tree_of]. now rewrite tree_nobj_set.
Qed.

(** The turns that remain once the entries [done] are dealt with, on a
    document no object of which is shared. *)
Lemma set_context_users_tree (r : nat) (rest : list node) :
  forall (props : list (string * node)) (c : nat) (done : list node),
    nobj_get props "contexts" = NArray c (done ++ rest) ->
    NoDup (refs (NObject r props)) ->
    tree_result (set_context_users (NObject r props) (length done) (length rest))
    = (l ← mapM set_context_user (tree_of <$> rest);
       Ok (VObject (obj_set (trees props) "contexts" (VArray ((tree_of <$> done) ++ l))))).
Proof.
  induction rest as [| context rest IH]; intros props c done Hget Hnd.
  - simpl. rewrite !app_nil_r in *.
    assert (obj_get (trees props) "contexts" = VArray (tree_of <$> done)) as Ht.
    { now rewrite <- tree_nobj_get, Hget. }
    rewrite <- Ht. rewrite obj_set_same; [reflexivity |]. now rewrite Ht.
  - cbn [length set_context_users]. unfold set_context_user_at. cbn [node_prop].
    rewrite Hget. cbn [mbind result_bind]. rewrite list_lookup_middle by reflexivity.
    rewrite fmap_cons. cbn [mapM].
    assert (Hnext : nobj_get props "contexts" = NArray c ((done ++ [context]) ++ rest)).
    { now rewrite <- app_assoc. }
    assert (Hlen : forall x : node, S (length done) = length (done ++ [x])).
    { intros x. rewrite length_app. simpl. lia. }
    assert (Hsame : forall x l, (tree_of <$> done) ++ tree_of x :: l
                                = (tree_of <$> (done ++ [x])) ++ l).
    { intros x l. now rewrite fmap_app, <- app_assoc. }
    assert (Hskip :
              set_context_user (tree_of context) = Ok (tree_of context) ->
              tree_result (set_context_users (NObject r props) (S (length done))
                             (length rest))
              = (l ← (y ← set_context_user (tree_of context);
                      k ← mapM set_context_user (tree_of <$> rest); mret (y :: k));
                 Ok (VObject (obj_set (trees props) "contexts"
                                (VArray ((tree_of <$> done) ++ l)))))).
    { intros ->. rewrite (Hlen context), (IH props c (done ++ [context]) Hnext Hnd).
      cbn [mbind result_bind mret result_ret].
      destruct (mapM _ _); cbn [mbind result_bind mret result_ret]; now rewrite ?Hsame. }
    pose proof (set_context_user_tree context) as Hstep.
    destruct (node_prop context "context") as [inner | e] eqn:Hinner;
      cbn [mbind result_bind]; [| now rewrite Hstep].
    destruct inner as [| | b | z | s | ri elems | ri iprops];
      try (now rewrite Hstep); try (now apply Hskip).
    destruct Hstep as (rc & cprops & -> & Hctx & ->).
    set (context' := NObject rc (nobj_set cprops "context"
                                   (NObject ri (nobj_set iprops "user" (NString userName))))).
    assert (Hupd : update ri (assign "user" (NString userName)) (NObject r props)
                   = NObject r (nobj_set props "contexts"
                                  (NArray c (done ++ context' :: rest)))).
    { assert (Hc : NoDup (refs (NArray c (done ++ NObject rc cprops :: rest)))).
      { rewrite <- Hget. apply NoDup_refs_bound. cbn [refs] in Hnd.
        now apply NoDup_cons in Hnd as [_ ?]. }
      assert (Hx : NoDup (refs (NObject rc cprops))) by apply (NoDup_refs_elem _ _ _ _ Hc).
      assert (Hi : ri ∈ refs (nobj_get cprops "context")).
      { rewrite Hctx. cbn [refs]. apply elem_of_cons. now left. }
      assert (Hri : ri ∈ refs (NObject rc cprops)).
      { cbn [refs]. apply elem_of_cons. right. now apply (refs_bound cprops "context"). }
      rewrite (update_object ri r props "contexts"); [| exact Hnd |].
      - rewrite Hget, update_array by assumption.
        rewrite (update_object ri rc cprops "context") by assumption.
        now rewrite Hctx, update_here.
      - rewrite Hget. cbn [refs]. apply elem_of_cons. right.
        rewrite bind_app, bind_cons. apply elem_of_app. right. apply elem_of_app. now left. }
    rewrite Hupd. cbn [mbind result_bind]. rewrite (Hlen context').
    rewrite (IH (nobj_set props "contexts" (NArray c (done ++ context' :: rest))) c
               (done ++ [context'])).
    + destruct (mapM set_context_user (tree_of <$> rest));
        cbn [mbind result_bind mret result_ret]; [| reflexivity].
      now rewrite tree_nobj_set, obj_set_set, Hsame.
    + now rewrite nobj_get_set, <- app_assoc.
    + rewrite <- Hupd. eapply submseteq_NoDup'; [| exact Hnd].
      apply refs_update_sub. intros m. apply refs_assign_sub.
Qed.


Lemma falsy_refs (n : node) : truthy (tree_of n) = false -> refs n = [].
Proof. now destruct n. Qed.

(** index.js:200-205 *)
Lemma contexts_tree (r : nat) (props : list (string * node)) :
  NoDup (refs (NObject r props)) ->
  tree_result
    (contexts ← node_prop (NObject r props) "contexts";
     if negb (truthy (tree_of contexts)) then Throw no_contexts
     else match contexts with
          | NArray _ elems => set_context_users (NObject r props) 0 (length elems)
          | _ => Throw TypeError
          end)
  = (let contexts := obj_get (trees props) "contexts" in
     if negb (truthy contexts) then Throw no_contexts
     else match contexts with
          | VArray l =>
              l ← mapM set_context_user l;
              Ok (VObject (obj_set (trees props) "contexts" (VArray l)))
          | _ => Throw TypeError
          end).
Proof.
  intros Hnd. cbn [node_prop mbind result_bind]. cbv zeta. rewrite <- tree_nobj_get.
  destruct (nobj_get props "contexts") as [| | b | z | s | c elems | c cprops] eqn:Hget;
    cbn [tree_of]; try reflexivity; try (now destruct (negb (truthy _))).
  cbn [truthy negb].
  pose proof (set_context_users_tree r elems props c [] Hget Hnd) as Hloop.
  change (length []) with 0 in Hloop. rewrite Hloop. reflexivity.
Qed.

(** index.js:192 *)
Lemma pushed_tree (r a : nat) (props : list (string * node)) (us : list node)
    (entry : node) :
  nobj_get props "users" = NArray a us ->
  NoDup (refs (NObject r props) ++ refs entry) ->
  exists props',
    update a (push entry) (NObject r props) = NObject r props'
    /\ trees props'
       = obj_set (trees props) "users" (VArray ((tree_of <$> us) ++ [tree_of entry]))
    /\ NoDup (refs (NObject r props')).
Proof.
  intros Hget Hnd. exists (nobj_set props "users" (NArray a (us ++ [entry]))).
  assert (Hdoc : NoDup (refs (NObject r props))) by now apply NoDup_app in Hnd as [? _].
  split_and!.
  - rewrite (update_object a r props "users"); [| exact Hdoc |].
    + now rewrite Hget, update_array_here.
    + rewrite Hget. cbn [refs]. apply elem_of_cons. now left.
  - rewrite tree_nobj_set. cbn [tree_of]. now rewrite fmap_app.
  - revert Hnd. cbn [refs].
    destruct (refs_props_key props "users") as (others & -> & ->). rewrite Hget.
    cbn [refs]. rewrite bind_app, bind_cons. change ([] ≫= refs) with (@nil nat).
    rewrite app_nil_r. intros Hnd.
    assert (Hperm : r :: (a :: (us ≫= refs) ++ refs entry) ++ others
                    ≡ₚ (r :: (a :: us ≫= refs) ++ others) ++ refs entry).
    { simpl. do 2 constructor. rewrite <- !app_assoc.
      apply Permutation_app_head, Permutation_app_comm. }
    now rewrite Hperm.
Qed.

(** On a document none of whose arrays and mappings is held at two places
    (nor shared with the token), the program in place computes what
    [add_token_user] computes on the tree, and throws what it throws. *)
Lemma add_token_user_in_place_tree (document kubeToken : node) :
  NoDup (refs document ++ refs kubeToken) ->
  tree_result (add_token_user_in_place document kubeToken)
  = add_token_user (tree_of document) (tree_of kubeToken).
Proof.
  intros Hnd. destruct document as [| | b | z | s | r elems | r props]; try reflexivity.
  unfold add_token_user_in_place, add_token_user. cbn [tree_of].
  set (new := S (max_list (refs (NObject r props) ++ refs kubeToken))).
  set (entry := NObject (S new) [("name", NString userName);
                                 ("user", NObject (S (S new)) [("token", kubeToken)])]).
  assert (Hfresh : forall x, x ∈ refs (NObject r props) ++ refs kubeToken -> x < new).
  { intros x Hx%max_list_elem_of_le. unfold new. lia. }
  assert (Hrefs : refs entry = S new :: S (S new) :: refs kubeToken).
  { unfold entry. cbn. now rewrite !app_nil_r. }
  assert (Hall : NoDup (new :: refs (NObject r props) ++ refs entry)).
  { rewrite Hrefs.
    assert (Hperm : new :: refs (NObject r props) ++ S new :: S (S new) :: refs kubeToken
                    ≡ₚ new :: S new :: S (S new)
                         :: (refs (NObject r props) ++ refs kubeToken)).
    { constructor. rewrite <- !Permutation_middle. reflexivity. }
    rewrite Hperm.
    apply NoDup_cons_2; [| apply NoDup_cons_2; [| apply NoDup_cons_2; [| exact Hnd]]];
      rewrite ?not_elem_of_cons; split_and?; try lia;
      intros Hx%Hfresh; lia. }
  rewrite <- tree_nobj_get.
  destruct (truthy (tree_of (nobj_get props "users"))) eqn:Husers; cbn [negb].
  - cbn [node_prop mbind result_bind].
    destruct (nobj_get props "users") as [| | b | z | s | a us | a uprops] eqn:Hget;
      cbn [tree_of]; try reflexivity.
    destruct (pushed_tree r a props us entry Hget) as (props' & -> & Htrees & Hnd');
      [now apply NoDup_cons in Hall as [_ ?] |].
    rewrite (contexts_tree r props' Hnd'). cbv zeta. cbn [mbind result_bind].
    now rewrite Htrees.
  - cbn [assign node_prop mbind result_bind]. rewrite nobj_get_set.
    destruct (pushed_tree r new (nobj_set props "users" (NArray new [])) [] entry)
      as (props' & -> & Htrees & Hnd').
    { apply nobj_get_set. }
    { revert Hall. cbn [refs].
      destruct (refs_props_key props "users") as (others & -> & ->).
      rewrite (falsy_refs _ Husers). cbn [refs app]. change ([] ≫= refs) with (@nil nat).
      intros Hall. eapply NoDup_Permutation_proper; [| exact Hall].
      cbn [app]. apply Permutation_swap. }
    rewrite (contexts_tree r props' Hnd'). cbv zeta. cbn [mbind result_bind].
    now rewrite Htrees, tree_nobj_set, obj_set_set.
Qed.

(** X10: The injected user is appended and nothing else is lost, on a
    kubeconfig without aliases: when no array or mapping of the parsed
    document (or of the token) is held at two places, the document has a list
    of users and its contexts are well formed, the users of the document the
    program leaves are the former users in their order followed by the new
    one, every other section of the document is as it was, and each context
    differs from the former one in [context.user] at most. *)
Theorem add_token_user_keeps_the_rest (document kubeToken : node)
    (props : list (string * value)) (users contexts : list value) :
  NoDup (refs document ++ refs kubeToken) ->
  tree_of document = VObject props ->
  obj_get props "users" = VArray users ->
  obj_get props "contexts" = VArray contexts ->
  Forall (fun c => is_context c = true) contexts ->
  exists document' props' contexts',
    add_token_user_in_place document kubeToken = Ok document'
    /\ tree_of document' = VObject props'
    /\ obj_get props' "users" = VArray (users ++ [identity (tree_of kubeToken)])
    /\ obj_get props' "contexts" = VArray contexts'
    /\ Forall2 same_but_user contexts contexts'
    /\ (forall name, name <> "users" -> name <> "contexts" ->
          obj_get props' name = obj_get props name).
Proof.
  intros Hnd Htree Husers Hcontexts Hall.
  destruct (add_token_user_rest props (tree_of kubeToken) users contexts Husers Hcontexts
              Hall) as (props' & contexts' & Hadd & Hrest).
  pose proof (add_token_user_in_place_tree document kubeToken Hnd) as Hsame.
  rewrite Htree, Hadd in Hsame.
  destruct (add_token_user_in_place document kubeToken) as [document' | e];
    [| discriminate Hsame].
  injection Hsame as Hsame. now exists document', props', contexts'.
Qed.

(** With an alias the tree is not what the program computes: the user pushed
    to [users] shows in [clusters], which is the same array. *)
Example add_token_user_in_place_alias :
  tree_result (add_token_user_in_place shared_users (NString "t0k3n"))
  = Ok (VObject [("clusters", VArray [identity (VString "t0k3n")]);
                 ("users", VArray [identity (VString "t0k3n")]);
                 ("contexts", VArray [])])
  /\ add_token_user (tree_of shared_users) (VString "t0k3n")
     = Ok (VObject [("clusters", VArray []);
                    ("users", VArray [identity (VString "t0k3n")]);
                    ("contexts", VArray [])]).
Proof. split; reflexivity. Qed.

Lemma set_context_user_throws (context : value) :
  no_inner_context context -> set_context_user context = Throw TypeError.
Proof. unfold set_context_user. now intros [-> | [-> | ->]]. Qed.

Lemma set_context_user_error (context : value) (e : exn) :
  set_context_user context = Throw e -> e = TypeError.
Proof.
  unfold set_context_user. destruct (get_prop context "context") as [inner | e'] eqn:H.
  - simpl. destruct inner, context; simpl; congruence.
  - destruct context; simpl in H; try discriminate; simpl; try congruence;
      destruct (String.eqb "context" "length"); discriminate.
Qed.

Lemma mapM_set_context_user_some_throws (contexts : list value) (context : value) :
  context ∈ contexts -> no_inner_context context ->
  mapM set_context_user contexts = Throw TypeError.
Proof.
  induction contexts as [| c contexts IH]; intros Hin Hno; [now apply elem_of_nil in Hin |].
  simpl. destruct (set_context_user c) as [c' | e] eqn:Hc.
  - apply elem_of_cons in Hin as [<- | Hin].
    + rewrite set_context_user_throws in Hc by exact Hno. discriminate.
    + simpl. now rewrite IH.
  - simpl. now rewrite (set_context_user_error _ _ Hc).
Qed.

(** X11: A kubeconfig of another shape is refused with a TypeError: users that are
    truthy but not a list, contexts that are truthy but not a list, and a list
    of contexts one of which has no [context] (or is [null]); a document that
    is empty or a scalar as well. *)
Theorem add_token_user_malformed (kubeToken : value) :
  (forall props, truthy (obj_get props "users") = true ->
     (forall l, obj_get props "users" <> VArray l) ->
     add_token_user (VObject props) kubeToken = Throw TypeError)
  /\ (forall props, truthy (obj_get props "users") = false \/
                    (exists l, obj_get props "users" = VArray l) ->
        truthy (obj_get props "contexts") = true ->
        (forall l, obj_get props "contexts" <> VArray l) ->
        add_token_user (VObject props) kubeToken = Throw TypeError)
  /\ (forall props contexts context,
        truthy (obj_get props "users") = false \/
          (exists l, obj_get props "users" = VArray l) ->
        obj_get props "contexts" = VArray contexts ->
        context ∈ contexts -> no_inner_context context ->
        add_token_user (VObject props) kubeToken = Throw TypeError)
  /\ (forall document, (forall props, document <> VObject props) ->
        (forall l, document <> VArray l) ->
        add_token_user document kubeToken = Throw TypeError).
Proof.
  assert (Hpush : forall props,
            truthy (obj_get props "users") = false \/
              (exists l, obj_get props "users" = VArray l) ->
            exists l, (if negb (truthy (obj_get props "users")) then VArray []
                       else obj_get props "users") = VArray l).
  { intros props [-> | [l ->]]; simpl; eauto. }
  split_and!.
  - intros props Ht Hl. unfold add_token_user. rewrite Ht. simpl.
    destruct (obj_get props "users"); try reflexivity. now destruct (Hl elems).
  - intros props Hu Ht Hl. unfold add_token_user.
    destruct (Hpush props Hu) as [l ->]. simpl.
    rewrite obj_get_set_ne by discriminate. rewrite Ht. simpl.
    destruct (obj_get props "contexts"); try reflexivity. now destruct (Hl elems).
  - intros props contexts context Hu Hc Hin Hno. unfold add_token_user.
    destruct (Hpush props Hu) as [l ->]. simpl.
    rewrite obj_get_set_ne by discriminate. rewrite Hc. simpl.
    now rewrite (mapM_set_context_user_some_throws contexts context).
  - intros document Ho Ha.
    destruct document; try reflexivity; [now destruct (Ha elems) | now destruct (Ho props)].
Qed.

Lemma add_token_user_keeps_the_rest_witness :
  exists document' props',
    add_token_user_in_place alice_document (NString "t0k3n") = Ok document'
    /\ tree_of document' = VObject props'
    /\ obj_get props' "users" = VArray [alice; identity (VString "t0k3n")]
    /\ obj_get props' "clusters" = VArray [].
Proof.
  destruct (add_token_user_keeps_the_rest alice_document (NString "t0k3n") with_alice
              [alice] dev_prod)
    as (document' & props' & contexts' & Hadd & Htree & Husers & _ & _ & Hrest);
    [apply (bool_decide_unpack _); reflexivity | reflexivity | reflexivity | reflexivity
    | repeat constructor |].
  exists document', props'. split_and!; [exact Hadd | exact Htree | exact Husers |].
  now rewrite Hrest.
Defined.

Lemma add_token_user_malformed_witness :
  add_token_user (VObject [("contexts", VArray [VObject [("name", VString "dev")]])])
    (VString "t0k3n")
  = Throw TypeError.
Proof.
  pose proof (add_token_user_malformed (VString "t0k3n")) as (_ & _ & Hentry & _).
  apply (Hentry _ [VObject [("name", VString "dev")]] (VObject [("name", VString "dev")])).
  - now left.
  - reflexivity.
  - apply elem_of_cons. now left.
  - right. now left.
Defined.

Section KubeConfigMore.

Variable homedir_kube_config : string.
Variable yaml_load : string -> result value.
Variable yaml_dump : value -> string.

Variable file_of : string -> string.

Local Abbreviation add_token :=
  (addTokenToKubeConfig homedir_kube_config yaml_load yaml_dump file_of).


(** X13: Which file is read, and what happens when it cannot be: the kubeconfig
    is the one [KUBECONFIG] names, or the one of the home directory when
    [KUBECONFIG] is unset or empty; when that file does not exist the error
    says so, and when it does not parse the error of the parser comes out;
    nothing is written in either case. *)
Theorem addTokenToKubeConfig_unreadable (kubeToken : value) (w : World) :
  kubeconfig_file homedir_kube_config None = homedir_kube_config
  /\ kubeconfig_file homedir_kube_config (Some EmptyString) = homedir_kube_config
  /\ (forall path, path <> EmptyString ->
        kubeconfig_file homedir_kube_config (Some path) = path)
  /\ (forall kubeconfigPath,
        fs w !! file_of (kubeconfig_file homedir_kube_config kubeconfigPath) = None ->
        add_token kubeconfigPath kubeToken w = (Throw not_found, w, []))
  /\ (forall kubeconfigPath data e,
        fs w !! file_of (kubeconfig_file homedir_kube_config kubeconfigPath) = Some data ->
        yaml_load data = Throw e ->
        add_token kubeconfigPath kubeToken w = (Throw e, w, [])).
Proof.
  split_and!; try reflexivity.
  - intros path Hpath. unfold kubeconfig_file. simpl.
    now destruct (String.eqb_spec path EmptyString).
  - intros kubeconfigPath Hfile. unfold addTokenToKubeConfig. step_M. now rewrite Hfile.
  - intros kubeconfigPath data e Hfile Hload. unfold addTokenToKubeConfig. step_M.
    now rewrite Hfile, Hload.
Qed.

End KubeConfigMore.


Lemma addTokenToKubeConfig_unreadable_witness :
  addTokenToKubeConfig "/root/.kube/config" load_examples dump_examples as_spelled None
    (VString "t0k3n") (disk yaml_two)
  = (Throw not_found, disk yaml_two, []).
Proof.
  pose proof (addTokenToKubeConfig_unreadable "/root/.kube/config" load_examples
                dump_examples as_spelled (VString "t0k3n") (disk yaml_two))
    as (_ & _ & _ & Hmissing & _).
  now apply Hmissing.
Defined.

(** ** More on rendering *)

Section RenderMore.

Variable JSON_stringify : value -> string.
Variable Mustache_render : string -> value -> result string.
Variable data : value.

Variable file_of : string -> string.

Local Abbreviation task_of files0 := (render_task Mustache_render file_of files0 data).
Local Abbreviation rendered_files := (renderFiles JSON_stringify Mustache_render file_of).

(** A file that no task that succeeds names is not written. *)
Lemma foldl_write_rendered_unwritten (files0 acc : gmap string string)
    (files : list value) (file : string) :
  (forall path rendered,
     VString path ∈ files -> task_of files0 (VString path) = Ok (VString path, rendered) ->
     file_of path <> file) ->
  foldl (write_rendered file_of) acc (task_of files0 <$> files) !! file = acc !! file.
Proof.
  revert acc. induction files as [| f files IH]; intros acc Hout; [reflexivity |].
  simpl. rewrite IH by (intros path rendered Hin; apply Hout, elem_of_cons; now right).
  destruct (task_of files0 f) as [[f' r] |] eqn:Hf; [| reflexivity].
  pose proof Hf as Hok.
  apply render_task_ok in Hok as (other & content & -> & -> & _). simpl.
  apply lookup_insert_ne. apply (Hout other r); [apply elem_of_cons; now left | exact Hf].
Qed.

(** A file that none of the paths names is not written. *)
Lemma foldl_write_rendered_other (files0 acc : gmap string string) (files : list value)
    (file : string) :
  (forall path, VString path ∈ files -> file_of path <> file) ->
  foldl (write_rendered file_of) acc (task_of files0 <$> files) !! file = acc !! file.
Proof.
  intros Hout. apply foldl_write_rendered_unwritten. intros path rendered Hin _.
  now apply Hout.
Qed.



End RenderMore.


(** ** The footprint of a run *)

Section Keeps.

Context {F E : string -> Prop} {Q : event -> Prop}.

Lemma unchanged_outside_refl (w : World) : unchanged_outside F E w w.
Proof. now repeat split. Qed.

Lemma unchanged_outside_trans (w1 w2 w3 : World) :
  unchanged_outside F E w1 w2 -> unchanged_outside F E w2 w3 ->
  unchanged_outside F E w1 w3.
Proof.
  intros (Hf1 & He1 & Hx1) (Hf2 & He2 & Hx2). split_and!.
  - intros path Hp. now rewrite Hf2, Hf1.
  - intros name Hn. now rewrite He2, He1.
  - congruence.
Qed.

Lemma keeps_ret {A : Type} (a : A) : keeps F E Q (mret a).
Proof. intros w. split; [apply unchanged_outside_refl | constructor]. Qed.

Lemma keeps_lift {A : Type} (r : result A) : keeps F E Q (lift r).
Proof. intros w. split; [apply unchanged_outside_refl | constructor]. Qed.

Lemma keeps_throw {A : Type} (e : exn) : keeps F E Q (throw (A := A) e).
Proof. intros w. split; [apply unchanged_outside_refl | constructor]. Qed.

Lemma keeps_get_world : keeps F E Q get_world.
Proof. intros w. split; [apply unchanged_outside_refl | constructor]. Qed.

Lemma keeps_emit (ev : event) : Q ev -> keeps F E Q (emit ev).
Proof. intros Hev w. split; [apply unchanged_outside_refl | now repeat constructor]. Qed.

Lemma keeps_emit_all (evs : list event) : Forall Q evs -> keeps F E Q (emit_all evs).
Proof. intros Hev w. split; [apply unchanged_outside_refl | exact Hev]. Qed.

Lemma keeps_bind {A B : Type} (m : M A) (f : A -> M B) :
  keeps F E Q m -> (forall a, keeps F E Q (f a)) -> keeps F E Q (m ≫= f).
Proof.
  intros Hm Hf w. unfold mbind, M_bind. destruct (Hm w) as [Hw Hout].
  destruct (m w) as [[[a | e] w1] out1]; simpl in *; [| now split].
  destruct (Hf a w1) as [Hw1 Hout1]. destruct (f a w1) as [[r w2] out2]. simpl in *.
  split; [eapply unchanged_outside_trans; eassumption | now apply Forall_app_2].
Qed.

Lemma keeps_bind_lift {A B : Type} (r : result A) (f : A -> M B) :
  (forall a, r = Ok a -> keeps F E Q (f a)) -> keeps F E Q (lift r ≫= f).
Proof.
  intros Hf w. unfold mbind, M_bind, lift. destruct r as [a | e]; simpl.
  - destruct (Hf a eq_refl w) as [Hw Hout]. destruct (f a w) as [[r w2] out2]. now split.
  - split; [apply unchanged_outside_refl | constructor].
Qed.

Lemma keeps_when (c : bool) (m : M unit) : keeps F E Q m -> keeps F E Q (when c m).
Proof. intros Hm. destruct c; [exact Hm | apply keeps_ret]. Qed.

Lemma keeps_writeFile (file_of : string -> string) (path data : string) :
  F (file_of path) -> keeps F E Q (writeFile file_of path data).
Proof.
  intros Hpath w. split; [| constructor]. split_and!; try reflexivity.
  intros other Hother. simpl. apply lookup_insert_ne. congruence.
Qed.

Lemma keeps_writeFile_value (file_of : string -> string) (path : string) (data : value) :
  F (file_of path) -> keeps F E Q (writeFile_value file_of path data).
Proof. intros Hpath. destruct data; try apply keeps_throw. now apply keeps_writeFile. Qed.

Lemma keeps_set_env (name x : string) : E name -> keeps F E Q (set_env name x).
Proof.
  intros Hname w. split; [| constructor]. split_and!; try reflexivity.
  intros other Hother. simpl. apply lookup_insert_ne. congruence.
Qed.

Lemma keeps_exec (exec_exec : value -> list value -> bool -> result unit)
    (command : value) (args : list value) (ignore : bool) :
  Q (Exec command args) -> keeps F E Q (exec exec_exec command args ignore).
Proof. intros Hq. apply keeps_bind; [now apply keeps_emit | intros; apply keeps_lift]. Qed.

Lemma keeps_addTokenToKubeConfig (homedir_kube_config : string)
    (yaml_load : string -> result value) (yaml_dump : value -> string)
    (file_of : string -> string) (kubeconfigPath : option string) (kubeToken : value) :
  F (file_of "./kubeconfig-with-token.yml") ->
  keeps F E Q
    (addTokenToKubeConfig homedir_kube_config yaml_load yaml_dump file_of kubeconfigPath
       kubeToken).
Proof.
  intros Hnew. unfold addTokenToKubeConfig.
  apply keeps_bind; [apply keeps_get_world | intros w0].
  destruct (fs w0 !! _); [| apply keeps_throw].
  apply keeps_bind; [apply keeps_lift | intros document].
  apply keeps_bind; [apply keeps_lift | intros document'].
  apply keeps_bind; [now apply keeps_writeFile | intros; apply keeps_ret].
Qed.

Lemma keeps_renderFiles (JSON_stringify : value -> string)
    (Mustache_render : string -> value -> result string) (file_of : string -> string)
    (files : list value) (data : value) :
  (forall path, VString path ∈ files -> F (file_of path)) ->
  (forall text, Q (Debug text)) ->
  keeps F E Q (renderFiles JSON_stringify Mustache_render file_of files data).
Proof.
  intros Hfiles Hdebug w. rewrite renderFiles_eq. simpl. split; [| now repeat constructor].
  split_and!; try reflexivity.
  intros file Hfile. simpl. apply foldl_write_rendered_other. intros path Hin <-.
  now apply Hfile, Hfiles.
Qed.

End Keeps.

Lemma keeps_weaken {A : Type} (F E F' E' : string -> Prop) (Q Q' : event -> Prop) (m : M A) :
  (forall path, F path -> F' path) -> (forall name, E name -> E' name) ->
  (forall ev, Q ev -> Q' ev) ->
  keeps F E Q m -> keeps F' E' Q' m.
Proof.
  intros HF HE HQ Hm w. destruct (Hm w) as [(Hf & He & Hx) Hout]. split.
  - split_and!; [intros path Hp; apply Hf | intros name Hn; apply He | exact Hx]; auto.
  - eapply Forall_impl; eauto.
Qed.

Section Deploy.

Variable core_getInput : string -> string.
Variable deployment : value.
Variable JSON_parse : string -> option value.
Variable JSON_stringify : value -> string.
Variable Mustache_render : string -> value -> result string.
Variable base64_decode : string -> string.
Variable homedir_kube_config : string.
Variable yaml_load : string -> result value.
Variable yaml_dump : value -> string.
Variable exec_exec : value -> list value -> bool -> result unit.

Variable file_of : string -> string.

Local Abbreviation resolved := (resolve core_getInput deployment JSON_parse JSON_stringify).

Local Abbreviation deployed :=
  (deploy core_getInput deployment JSON_parse JSON_stringify Mustache_render
     base64_decode homedir_kube_config yaml_load yaml_dump exec_exec file_of).

Local Abbreviation files_and_helm :=
  (deploy_files_and_helm deployment JSON_stringify Mustache_render base64_decode
     homedir_kube_config yaml_load yaml_dump exec_exec file_of).

Local Abbreviation written := (deploy_files file_of).

Lemma deploy_steps :
  deployed
  = (p ← lift resolved; emit_all (debug_params JSON_stringify p);; set_helm_env p;;
     files_and_helm p).
Proof. reflexivity. Qed.

Lemma debug_params_events (p : Params) (Q : event -> Prop) :
  (forall text, Q (Debug text)) -> Forall Q (debug_params JSON_stringify p).
Proof. intros Hq. unfold debug_params. repeat constructor; apply Hq. Qed.

Lemma keeps_set_helm_env (F : string -> Prop) (Q : event -> Prop) (p : Params) :
  keeps F helm_env Q (set_helm_env p).
Proof.
  unfold set_helm_env, helm_env. destruct (strict_eq_string (helm p) "helm3");
    repeat (apply keeps_bind; [| intros _]); apply keeps_set_env; auto.
Qed.

(** Applies the rule of the step at the head of a computation. *)
Ltac keeps_step :=
  first [ apply keeps_ret | apply keeps_lift | apply keeps_throw | apply keeps_get_world
        | apply keeps_when
        | apply keeps_emit; exact I
        | apply keeps_set_env; reflexivity
        | apply keeps_writeFile; unfold deploy_files; auto
        | apply keeps_writeFile_value; unfold deploy_files; auto
        | apply keeps_addTokenToKubeConfig; unfold deploy_files; auto
        | apply keeps_bind; [| intros ?] ].

Lemma keeps_files_and_helm (p : Params) :
  keeps (written p) (eq "KUBECONFIG") (deploy_event p) (files_and_helm p).
Proof.
  unfold deploy_files_and_helm.
  keeps_step; [keeps_step |].
  keeps_step.
  { destruct (env_truthy _); [repeat keeps_step |].
    destruct (env_truthy _); repeat keeps_step. }
  keeps_step; [keeps_step |].
  keeps_step; [repeat keeps_step |].
  keeps_step; [keeps_step |].
  keeps_step; [keeps_step |].
  keeps_step.
  { keeps_step. keeps_step; [keeps_step |].
    keeps_step; [apply keeps_exec; simpl; auto |].
    keeps_step; [keeps_step |]. apply keeps_exec. simpl. auto. }
  keeps_step.
  { apply keeps_renderFiles; [| intros; exact I].
    intros path [Hin | Hin%list_elem_of_singleton]%elem_of_app; unfold deploy_files;
      [do 3 right; eauto |].
    injection Hin as ->. auto. }
  keeps_step.
  { keeps_step. keeps_step; [keeps_step |]. keeps_step; [keeps_step |].
    apply keeps_exec. simpl. split; [reflexivity |]. right. left.
    unfold deleteCmd. now destruct (strict_eq_string (helm p) "helm3"). }
  keeps_step; [| keeps_step].
  destruct (strict_eq_string (task p) "remove") eqn:Htask.
  - keeps_step; [keeps_step |]. apply keeps_exec. simpl. split; [reflexivity |].
    right. left. unfold deleteCmd. now destruct (strict_eq_string (helm p) "helm3").
  - keeps_step; [keeps_step |]. apply keeps_exec. simpl. auto.
Qed.

Lemma keeps_deploy (p : Params) :
  resolved = Ok p -> keeps (written p) deploy_env (deploy_event p) deployed.
Proof.
  intros Hp. rewrite deploy_steps. apply keeps_bind_lift. intros p' Hp'.
  assert (p' = p) as -> by congruence.
  apply keeps_bind; [| intros _].
  { apply keeps_emit_all, debug_params_events. intros; exact I. }
  apply keeps_bind; [| intros _].
  - eapply keeps_weaken; [| | | apply (keeps_set_helm_env (written p) (deploy_event p))];
      unfold deploy_env; auto.
  - eapply keeps_weaken; [| | | apply keeps_files_and_helm]; unfold deploy_env; auto.
Qed.

Lemma deploy_unresolved (e : exn) (w : World) :
  resolved = Throw e -> deployed w = (Throw e, w, []).
Proof. intros He. rewrite deploy_steps. step_M. now rewrite He. Qed.

Lemma deploy_keeps_failed (w : World) : failed (deployed w).1.2 = failed w.
Proof.
  destruct resolved as [p | e] eqn:Hp.
  - now destruct (keeps_deploy p Hp w) as [(_ & _ & Hfailed) _].
  - now rewrite (deploy_unresolved e w Hp).
Qed.


Lemma deploy_events_post_nothing (p : Params) (out : list event) :
  Forall (deploy_event p) out -> posted out = [].
Proof.
  induction 1 as [| ev out Hev _ IH]; [reflexivity |].
  unfold posted in *. simpl. destruct ev; try exact IH. destruct Hev.
Qed.

(** X16: The processes [deploy] spawns are the resolved helm, and each one adds
    or updates a repository, deletes a release or, unless the task is
    [remove], is the upgrade command: with the task [remove] no command
    starting with [upgrade] is spawned, and [deploy] posts no status and
    prints no warning or error by itself. *)
Theorem deploy_spawns_helm_only (w : World) (p : Params) :
  resolved = Ok p ->
  Forall (deploy_event p) (deployed w).2
  /\ posted (deployed w).2 = []
  /\ (forall command args, (command, args) ∈ spawned (deployed w).2 -> command = helm p)
  /\ (strict_eq_string (task p) "remove" = true ->
      forall command args, (command, args) ∈ spawned (deployed w).2 ->
        head args <> Some (VString "upgrade")).
Proof.
  intros Hp. destruct (keeps_deploy p Hp w) as [_ Hout].
  assert (Hspawned : forall command args,
            (command, args) ∈ spawned (deployed w).2 -> deploy_event p (Exec command args)).
  { intros command args Hin. apply list_elem_of_omap in Hin as (ev & Hev & Heq).
    destruct ev; try discriminate. injection Heq as -> ->.
    eapply Forall_forall in Hout; eauto. }
  split_and!; [exact Hout | | |].
  - now apply (deploy_events_post_nothing p).
  - intros command args Hin. now destruct (Hspawned command args Hin).
  - intros Htask command args Hin.
    destruct (Hspawned command args Hin) as [_ [-> | [-> | [_ Hno]]]]; congruence.
Qed.

(** X17: The environment of helm is set as soon as the request resolves and stays
    set whatever happens afterwards: with [helm3] the three [XDG_] variables
    are [/root/.helm/] and [HELM_HOME] is as it was, otherwise [HELM_HOME] is
    [/root/.helm/] and the three others are as they were. *)
Theorem deploy_sets_helm_env (w : World) (p : Params) :
  resolved = Ok p ->
  let w' := (deployed w).1.2 in
  if strict_eq_string (helm p) "helm3" then
    env w' !! "XDG_DATA_HOME" = Some "/root/.helm/"
    /\ env w' !! "XDG_CACHE_HOME" = Some "/root/.helm/"
    /\ env w' !! "XDG_CONFIG_HOME" = Some "/root/.helm/"
    /\ env w' !! "HELM_HOME" = env w !! "HELM_HOME"
  else
    env w' !! "HELM_HOME" = Some "/root/.helm/"
    /\ env w' !! "XDG_DATA_HOME" = env w !! "XDG_DATA_HOME"
    /\ env w' !! "XDG_CACHE_HOME" = env w !! "XDG_CACHE_HOME"
    /\ env w' !! "XDG_CONFIG_HOME" = env w !! "XDG_CONFIG_HOME".
Proof.
  intros Hp w'. subst w'. rewrite deploy_steps. step_M. rewrite Hp.
  unfold emit_all, set_helm_env.
  destruct (strict_eq_string (helm p) "helm3"); unfold set_env, modify; simpl;
    match goal with
    | |- context [files_and_helm p ?w1] =>
        destruct (keeps_files_and_helm p w1) as [(_ & Henv & _) _];
        destruct (files_and_helm p w1) as [[r w2] out]
    end; simpl in *; rewrite !Henv by discriminate; simpl;
    split_and!; now simplify_map_eq.
Qed.

End Deploy.


(** A value file that is [./values.yml] under another spelling is there to
    read once [run] has written the values: the deployment goes through. *)
Example deploy_reads_the_values_it_wrote :
  let r := deploy value_file_inputs VUndefined (fun _ => None) no_json Mustache.render
             (fun s => s) "/root/.kube/config" load_examples dump_examples exec_ok
             without_dot blank in
  r.1.1 = Ok (VString "")
  /\ fs r.1.2 !! "values.yml" = Some "{}"
  /\ spawned r.2
     = [(VString "helm",
         [VString "upgrade"; VString "api-canary"; VString "/usr/src/charts/app";
          VString "--install"; VString "--wait"; VString "--atomic";
          VString "--namespace=prod"; VString "--set=app.name=api";
          VString "--values=values.yml"; VString "--values=./values.yml";
          VString "--set=service.enabled=false"; VString "--set=ingress.enabled=false"])].
Proof. split_and!; vm_compute; reflexivity. Qed.

Lemma deploy_spawns_helm_only_witness :
  posted (deploy canary_inputs VUndefined (fun _ => None) no_json Mustache.render
            (fun s => s) "/root/.kube/config" load_examples dump_examples exec_ok as_spelled
            blank).2
  = [].
Proof.
  now destruct (deploy_spawns_helm_only canary_inputs VUndefined (fun _ => None) no_json
                  Mustache.render (fun s => s) "/root/.kube/config" load_examples
                  dump_examples exec_ok as_spelled blank canary_request eq_refl)
    as (_ & Hposted & _).
Defined.

Lemma deploy_sets_helm_env_witness :
  env (deploy canary_inputs VUndefined (fun _ => None) no_json Mustache.render (fun s => s)
         "/root/.kube/config" load_examples dump_examples exec_ok as_spelled blank).1.2
    !! "HELM_HOME"
  = Some "/root/.helm/".
Proof.
  now destruct (deploy_sets_helm_env canary_inputs VUndefined (fun _ => None) no_json
                  Mustache.render (fun s => s) "/root/.kube/config" load_examples
                  dump_examples exec_ok as_spelled blank canary_request eq_refl)
    as (Hhome & _).
Defined.

(** ** A whole run *)

Section RunMore.

Variable core_getInput : string -> string.
Variable deployment : value.
Variable context_repo : result (string * string).
Variable context_sha : string.
Variable GitHub_new : string -> result unit.
Variable createDeploymentStatus : value -> string -> string -> result unit.
Variable JSON_parse : string -> option value.
Variable JSON_stringify : value -> string.
Variable Mustache_render : string -> value -> result string.
Variable base64_decode : string -> string.
Variable homedir_kube_config : string.
Variable yaml_load : string -> result value.
Variable yaml_dump : value -> string.
Variable exec_exec : value -> list value -> bool -> result unit.
Variable file_of : string -> string.

Local Abbreviation resolved := (resolve core_getInput deployment JSON_parse JSON_stringify).

Local Abbreviation deployed :=
  (deploy core_getInput deployment JSON_parse JSON_stringify Mustache_render
     base64_decode homedir_kube_config yaml_load yaml_dump exec_exec file_of).

Local Abbreviation report :=
  (status core_getInput deployment context_repo context_sha GitHub_new
     createDeploymentStatus).

Local Abbreviation ran :=
  (run core_getInput deployment context_repo context_sha GitHub_new
     createDeploymentStatus JSON_parse JSON_stringify Mustache_render base64_decode
     homedir_kube_config yaml_load yaml_dump exec_exec file_of).

(** What a report prints does not depend on the state. *)
Lemma status_out (state : string) (w w' : World) :
  report state w = (Ok tt, w, (report state w').2) /\ Forall status_event (report state w').2.
Proof.
  unfold status, try_catch.
  destruct (String.eqb (core_getInput "token") EmptyString || negb (truthy deployment));
    [simpl; split; [reflexivity | repeat constructor] |].
  step_M.
  destruct (GitHub_new _); [| simpl; split; [reflexivity | repeat constructor]].
  destruct context_repo as [[owner repo] |]; [| simpl; split; [reflexivity | repeat constructor]].
  destruct (get_prop deployment "id"); [| simpl; split; [reflexivity | repeat constructor]].
  destruct (createDeploymentStatus _ _ _) as [[] |]; simpl;
    (split; [reflexivity | repeat constructor]).
Qed.

Lemma status_events_spawn_nothing (out : list event) :
  Forall status_event out -> spawned out = [].
Proof.
  induction 1 as [| ev out Hev _ IH]; [reflexivity |].
  unfold spawned in *. simpl. destruct ev; try exact IH; destruct Hev.
Qed.

Lemma run_events (w : World) :
  ran w
  = (Ok tt, outcome (deployed w),
     (report "pending" w).2 ++ (deployed w).2
     ++ match (deployed w).1.1 with
        | Ok _ => []
        | Throw e => [ErrorLine e; ErrorLine e]
        end
     ++ (report (final_state (deployed w).1.1) w).2).
Proof.
  unfold run, try_catch. unfold mbind at 1. unfold M_bind at 1.
  destruct (status_out "pending" w w) as [-> _].
  unfold mbind at 1. unfold M_bind at 1.
  destruct (deployed w) as [[[task | e] w1] out1]; simpl.
  - destruct (status_out (if strict_eq_string task "remove" then "inactive" else "success")
                w1 w) as [-> _].
    reflexivity.
  - step_M. destruct (status_out "failure" (with_failed w1 e) w) as [-> _].
    simpl. now rewrite <- !app_assoc.
Qed.

(** X18: A run never throws, and it records a failure exactly when the deployment
    threw: the failure recorded is then the error thrown, otherwise the
    record is as it was before the run; the files and the environment are
    those the deployment left. *)
Theorem run_records_the_failure (w : World) :
  let r := ran w in
  r.1.1 = Ok tt
  /\ fs r.1.2 = fs (deployed w).1.2 /\ env r.1.2 = env (deployed w).1.2
  /\ (forall e, (deployed w).1.1 = Throw e -> failed r.1.2 = Some e)
  /\ (forall task, (deployed w).1.1 = Ok task -> failed r.1.2 = failed w).
Proof.
  intros r. subst r. rewrite run_events. simpl.
  pose proof (deploy_keeps_failed core_getInput deployment JSON_parse JSON_stringify
                Mustache_render base64_decode homedir_kube_config yaml_load yaml_dump
                exec_exec file_of w) as Hfailed.
  destruct (deployed w) as [[[task | e] w1] out1]; simpl in *;
    split_and!; try reflexivity; try discriminate; congruence.
Qed.

(** X19: A required input that is missing stops the run before it does anything:
    when the request does not resolve, the run records that error as its
    failure, writes no file, sets no environment variable, spawns no process
    and prints the error. *)
Theorem run_stops_on_unresolved_request (w : World) (e : exn) :
  resolved = Throw e ->
  exists out,
    ran w = (Ok tt, with_failed w e, out)
    /\ spawned out = []
    /\ ErrorLine e ∈ out.
Proof.
  intros He. rewrite run_events.
  rewrite (deploy_unresolved core_getInput deployment JSON_parse JSON_stringify
             Mustache_render base64_decode homedir_kube_config yaml_load yaml_dump
             exec_exec file_of e w He).
  simpl. eexists. split; [reflexivity |]. split.
  - unfold spawned. rewrite omap_app. simpl. rewrite <- (app_nil_r []).
    f_equal; apply status_events_spawn_nothing;
      [apply (status_out "pending" w w) | apply (status_out "failure" w w)].
  - apply elem_of_app. right. apply elem_of_cons. now left.
Qed.

Lemma status_posted (state : string) (w : World) (owner repo : string) :
  core_getInput "token" <> EmptyString -> truthy deployment = true ->
  GitHub_new (core_getInput "token") = Ok tt ->
  context_repo = Ok (owner, repo) ->
  posted (report state w).2 = [state].
Proof.
  intros Htoken Hd Hnew Hrepo. unfold status, try_catch.
  destruct (String.eqb_spec (core_getInput "token") EmptyString); [contradiction |].
  rewrite Hd. simpl. step_M. rewrite Hnew, Hrepo.
  destruct (get_prop_truthy deployment "id" Hd) as [id ->].
  now destruct (createDeploymentStatus _ _ _) as [[] |].
Qed.

Lemma status_posted_off (state : string) (w : World) :
  core_getInput "token" = EmptyString \/ truthy deployment = false ->
  posted (report state w).2 = [].
Proof. intros Hoff. now rewrite status_not_configured. Qed.

Lemma status_posted_unable (state : string) (w : World) (e : exn) :
  GitHub_new (core_getInput "token") = Throw e \/ context_repo = Throw e ->
  posted (report state w).2 = [].
Proof.
  intros Hunable. unfold status, try_catch.
  destruct (String.eqb (core_getInput "token") EmptyString || negb (truthy deployment));
    [reflexivity |].
  step_M. destruct Hunable as [-> | ->]; [reflexivity |].
  now destruct (GitHub_new _) as [[] |].
Qed.

Lemma deploy_posts_nothing (w : World) : posted (deployed w).2 = [].
Proof.
  destruct resolved as [p | e] eqn:Hp.
  - eapply deploy_events_post_nothing. eapply keeps_deploy, Hp.
  - now rewrite (deploy_unresolved _ _ _ _ _ _ _ _ _ _ _ e w Hp).
Qed.

(** X20: The statuses of a run: with a token, a deployment event, a client and
    a repository that is known ([context.repo] returns), the run posts
    [pending] first and then one final state, which is [failure] when the
    deployment threw, [inactive] when it returned the task [remove] and
    [success] otherwise (whether or not the requests get through); without a
    token or without an event, and when the client cannot be built or the
    repository is not known, it posts nothing. *)
Theorem run_status_sequence (w : World) :
  (forall owner repo,
     core_getInput "token" <> EmptyString -> truthy deployment = true ->
     GitHub_new (core_getInput "token") = Ok tt ->
     context_repo = Ok (owner, repo) ->
     posted (ran w).2 = ["pending"; final_state (deployed w).1.1])
  /\ (core_getInput "token" = EmptyString \/ truthy deployment = false ->
      posted (ran w).2 = [])
  /\ (forall e, GitHub_new (core_getInput "token") = Throw e \/ context_repo = Throw e ->
        posted (ran w).2 = []).
Proof.
  assert (Herror : forall r : result value,
            posted (match r with Ok _ => [] | Throw e => [ErrorLine e; ErrorLine e] end) = []).
  { now intros [|]. }
  split_and!.
  - intros owner repo Htoken Hd Hnew Hrepo. rewrite run_events. simpl.
    unfold posted at 1. rewrite !omap_app. fold posted.
    rewrite !(status_posted _ _ owner repo) by assumption.
    now rewrite deploy_posts_nothing, Herror.
  - intros Hoff. rewrite run_events. simpl.
    unfold posted at 1. rewrite !omap_app. fold posted.
    rewrite !status_posted_off by assumption.
    now rewrite deploy_posts_nothing, Herror.
  - intros e Hunable. rewrite run_events. simpl.
    unfold posted at 1. rewrite !omap_app. fold posted.
    rewrite !(status_posted_unable _ _ e) by assumption.
    now rewrite deploy_posts_nothing, Herror.
Qed.

End RunMore.

Lemma run_stops_on_unresolved_request_witness :
  exists out,
    run token_input event_7 (Ok ("o", "r")) "abc" failing_client failing_request
      (fun _ => None) no_json Mustache.render (fun s => s) "/root/.kube/config"
      load_examples dump_examples exec_ok as_spelled blank
    = (Ok tt, with_failed blank (Error "Input required and not supplied: release"), out)
    /\ spawned out = []
    /\ ErrorLine (Error "Input required and not supplied: release") ∈ out.
Proof.
  apply (run_stops_on_unresolved_request token_input event_7 (Ok ("o", "r")) "abc"
           failing_client failing_request (fun _ => None) no_json Mustache.render
           (fun s => s) "/root/.kube/config" load_examples dump_examples exec_ok as_spelled
           blank).
  reflexivity.
Defined.

Lemma run_status_sequence_witness :
  posted (run token_input event_7 (Ok ("o", "r")) "abc" (fun _ => Ok tt) failing_request
            (fun _ => None) no_json Mustache.render (fun s => s) "/root/.kube/config"
            load_examples dump_examples exec_ok as_spelled blank).2
  = ["pending"; "failure"].
Proof.
  pose proof (run_status_sequence token_input event_7 (Ok ("o", "r")) "abc"
                (fun _ => Ok tt) failing_request (fun _ => None) no_json Mustache.render
                (fun s => s) "/root/.kube/config" load_examples dump_examples exec_ok
                as_spelled blank)
    as (Hposted & _ & _).
  apply (Hposted "o" "r"); [discriminate | reflexivity | reflexivity | reflexivity].
Defined.
